(** * FlowSync: the reconciliation engine of [sync.js]

    A shallow embedding of [syncInstanceFlows] and of the aggregation and
    commit part of [syncFlows], with the properties the specification states
    about them.

    Conventions of the embedding.
    - A JavaScript string is a [string]: a sequence of code units below 256.
      The regular expression class [\s] and [toLowerCase] are given on that
      range.
    - The objects used as dictionaries ([lastState], [currentState]) are
      [gmap string FlowState]; [Object.keys] enumerates them in the order of
      [map_to_list].
    - Effects are explicit: a computation takes the world (working tree and
      the commands that fail in this environment) and returns its outcome,
      the new world and the events it emitted, in order. *)

From Stdlib Require Import Ascii.
From stdpp Require Import gmap strings list fin_maps pretty.


(** ** JavaScript and Node library functions used by the program *)

Module JS.

(** Code units. *)
Definition code (c : ascii) : nat := nat_of_ascii c.

(** [\s] on code units below 256: TAB, LF, VT, FF, CR, SPACE, NBSP. *)
Definition isSpace (c : ascii) : bool :=
  let n := code c in
  ((9 <=? n) && (n <=? 13)) || (n =? 32) || (n =? 160).

(** The class [[\s\/]] of line 137. *)
Definition isSpaceOrSlash (c : ascii) : bool :=
  isSpace c || (code c =? 47).

Fixpoint mapChars (f : ascii → ascii) (s : string) : string :=
  match s with
  | EmptyString => EmptyString
  | String c r => String (f c) (mapChars f r)
  end.

(** [s.replace(/[\s\/]/g, '_')] *)
Definition replaceSpaceSlash (s : string) : string :=
  mapChars (λ c, if isSpaceOrSlash c then "_"%char else c) s.

(** Upper-case letters below 256: A-Z, and the Latin-1 capitals
    U+00C0-U+00DE without the multiplication sign U+00D7. *)
Definition isUpper (c : ascii) : bool :=
  let n := code c in
  ((65 <=? n) && (n <=? 90)) ||
  ((192 <=? n) && (n <=? 222) && negb (n =? 215)).

Definition lowerChar (c : ascii) : ascii :=
  if isUpper c then ascii_of_nat (code c + 32) else c.

(** [s.toLowerCase()] *)
Definition toLowerCase (s : string) : string := mapChars lowerChar s.

Fixpoint dropChars (n : nat) (s : string) : string :=
  match n, s with
  | O, _ => s
  | S n', String _ r => dropChars n' r
  | S _, EmptyString => EmptyString
  end.

(** [s.slice(-4)]: the last four code units, the whole string when it is
    shorter. *)
Definition sliceLast4 (s : string) : string :=
  dropChars (String.length s - 4) s.

Fixpoint startsWith (p s : string) : bool :=
  match p, s with
  | EmptyString, _ => true
  | String a p', String b s' => bool_decide (a = b) && startsWith p' s'
  | String _ _, EmptyString => false
  end.

(** [s.includes(sub)] *)
Fixpoint includes (s sub : string) : bool :=
  startsWith sub s ||
  match s with
  | EmptyString => false
  | String _ r => includes r sub
  end.

(** [s.trim()] is only used to test for emptiness (line 254). *)
Fixpoint allSpace (s : string) : bool :=
  match s with
  | EmptyString => true
  | String c r => isSpace c && allSpace r
  end.

(** [xs.join(sep)] *)
Fixpoint join (sep : string) (xs : list string) : string :=
  match xs with
  | [] => ""
  | [x] => x
  | x :: r => x +:+ sep +:+ join sep r
  end.

(** A value interpolated in a template literal: [undefined] prints as
    such. *)
Definition interp (o : option string) : string := default "undefined" o.

(** [a || b] on optional strings: [undefined] and the empty string are
    falsy. *)
Definition orElse (o : option string) (d : string) : string :=
  match o with
  | Some s => if bool_decide (s = "") then d else s
  | None => d
  end.

(** Truthiness of an optional string. *)
Definition truthy (o : option string) : bool :=
  match o with
  | Some s => negb (bool_decide (s = ""))
  | None => false
  end.

End JS.

(** ** Node's [path] module, POSIX flavour *)

Module Path.

(** Split at every slash: ["a//b"] gives ["a"; ""; "b"]. *)
Fixpoint splitSlash (s : string) : list string :=
  match s with
  | EmptyString => [EmptyString]
  | String c r =>
      if bool_decide (c = "/"%char) then EmptyString :: splitSlash r
      else match splitSlash r with
           | [] => [String c EmptyString]
           | seg :: segs => String c seg :: segs
           end
  end.

(** One segment of [normalizeString]; the stack holds the kept segments,
    last one first. *)
Definition pushSegment (allowAboveRoot : bool) (stack : list string)
    (seg : string) : list string :=
  if bool_decide (seg = "") || bool_decide (seg = ".") then stack
  else if bool_decide (seg = "..") then
    match stack with
    | top :: rest =>
        if bool_decide (top = "..") then
          (if allowAboveRoot then ".." :: stack else stack)
        else rest
    | [] => if allowAboveRoot then [".."] else []
    end
  else seg :: stack.

Definition normalizeString (p : string) (allowAboveRoot : bool) : string :=
  JS.join "/" (rev (fold_left (pushSegment allowAboveRoot) (splitSlash p) [])).

Definition isAbsolute (p : string) : bool := JS.startsWith "/" p.

Fixpoint endsWithSlash (p : string) : bool :=
  match p with
  | EmptyString => false
  | String c EmptyString => bool_decide (c = "/"%char)
  | String _ r => endsWithSlash r
  end.

(** [path.normalize] *)
Definition normalize (p : string) : string :=
  if bool_decide (p = "") then "."
  else
    let body := normalizeString p (negb (isAbsolute p)) in
    if bool_decide (body = "") then
      (if isAbsolute p then "/" else if endsWithSlash p then "./" else ".")
    else
      let body' := if endsWithSlash p then body +:+ "/" else body in
      if isAbsolute p then "/" +:+ body' else body'.

(** [path.join(...args)]: the non-empty arguments joined by a slash, then
    normalized. *)
Definition join (args : list string) : string :=
  match filter (λ a, a ≠ "") args with
  | [] => "."
  | parts => normalize (JS.join "/" parts)
  end.

End Path.

(** ** Data model *)

(** A flow as the remote instance returns it (line 131). [id] and [name]
    are strings; the other fields may be missing. *)
Module Flow.
Record t := Build {
  id : string;
  name : string;
  flowData : option string;
  updatedDate : option string;
  type : option string
}.

(** The payload of a flow that passes the test of line 130:
    [flowData] is neither missing nor empty. *)
Definition payload (flow : t) : option string :=
  if JS.truthy (flowData flow) then flowData flow else None.
End Flow.

(** A recorded state entry (line 149). Entries read from a state file may
    lack fields, which lines 158 and 160 provide for. *)
Module FlowState.
Record t := Build {
  updatedDate : option string;
  name : option string;
  fileName : option string;
  type : option string
}.

#[global] Instance eq_dec : EqDecision t.
Proof. solve_decision. Defined.
End FlowState.

Module Instance.
Record t := Build {
  name : string;
  url : string;
  apiKey : string;
  enabled : bool
}.
End Instance.

(** What [syncInstanceFlows] returns (lines 187-192). *)
Module SyncResult.
Record t := Build {
  instanceName : string;
  changedFiles : list string;
  movedFiles : list string;
  stateFile : string
}.
End SyncResult.

(** The content of a file of the working tree: text, or the JSON document
    of a state mapping as [saveState] writes it and [getLastKnownState]
    parses it. Text stands for content that [JSON.parse] rejects when it is
    read as a state file. *)
Inductive Content :=
| Text (s : string)
| StateDoc (st : gmap string FlowState.t).

(** The world the program runs in: the files of the working tree, and the
    command lines that fail in this environment, each with its standard
    error output. *)
Record World := MkWorld {
  files : gmap string Content;
  failing : gmap string string
}.

(** What the remote instance answered to the request of line 107. *)
Inductive Body :=
| NotJson (syntaxError : string)
| Json (flows : list Flow.t).

Inductive Fetched :=
| FetchRejected (message : string)
| Response (ok : bool) (status : nat) (rawBody : string) (parsed : Body).

(** The shell commands the modelled code runs. *)
Inductive Command :=
| GitMv (source destination : string)
| GitConfigUserName
| GitConfigUserEmail
| GitAdd (filesToAdd : string)
| GitCommit (commitMessage : string)
| GitPush.

(** Observable effects, in the order they happen. *)
Inductive Event :=
| Log (message : string)
| Warn (message : string)
| Error (message : string)
| Mkdir (dir : string)
| WriteFile (path : string) (content : Content)
| Exec (commandLine : string).

(** ** Computations: state, exceptions and an event log *)

Inductive Outcome (A : Type) :=
| Returned (a : A)
| Thrown (message : string).
Arguments Returned {A} a.
Arguments Thrown {A} message.

Record Run (A : Type) := MkRun {
  outcome : Outcome A;
  world : World;
  events : list Event
}.
Arguments MkRun {A} outcome world events.
Arguments outcome {A} r.
Arguments world {A} r.
Arguments events {A} r.

Definition M (A : Type) : Type := World → Run A.

#[global] Instance M_ret : MRet M := λ A a w, MkRun (Returned a) w [].

#[global] Instance M_bind : MBind M := λ A B k m w,
  match m w with
  | MkRun (Returned a) w1 evs1 =>
      match k a w1 with
      | MkRun result w2 evs2 => MkRun result w2 (evs1 ++ evs2)
      end
  | MkRun (Thrown e) w1 evs1 => MkRun (Thrown e) w1 evs1
  end.

Definition throw {A} (message : string) : M A :=
  λ w, MkRun (Thrown message) w [].

(** [try { body } catch (e) { handler(e) }] *)
Definition tryCatch {A} (body : M A) (handler : string → M A) : M A := λ w,
  match body w with
  | MkRun (Returned a) w1 evs1 => MkRun (Returned a) w1 evs1
  | MkRun (Thrown e) w1 evs1 =>
      match handler e w1 with
      | MkRun result w2 evs2 => MkRun result w2 (evs1 ++ evs2)
      end
  end.

Definition emit (e : Event) : M () := λ w, MkRun (Returned ()) w [e].

(** [for (const x of xs) { acc = body(acc, x) }] *)
Fixpoint forEach {A B} (body : B → A → M B) (xs : list A) (acc : B) : M B :=
  match xs with
  | [] => mret acc
  | x :: rest => acc' ← body acc x; forEach body rest acc'
  end.

(** ** The operating system: console, file system and shell *)

Definition quote : string := String (ascii_of_nat 34) EmptyString.
Definition newline : string := String (ascii_of_nat 10) EmptyString.

Definition commandLine (c : Command) : string :=
  match c with
  | GitMv source destination =>
      "git mv " +:+ quote +:+ source +:+ quote +:+ " "
        +:+ quote +:+ destination +:+ quote
  | GitConfigUserName =>
      "git config --global user.name " +:+ quote +:+ "FlowSync Bot" +:+ quote
  | GitConfigUserEmail =>
      "git config --global user.email " +:+ quote +:+ "bot@flowsync.io" +:+ quote
  | GitAdd filesToAdd => "git add " +:+ filesToAdd
  | GitCommit commitMessage =>
      "git commit -m " +:+ quote +:+ commitMessage +:+ quote
  | GitPush => "git push -u origin main"
  end.

(** What a command does to the world, or the standard error output it
    fails with. A command fails when the environment says so; [git mv]
    also fails when the source is not in the working tree or the
    destination is taken, and otherwise renames the file. The other
    commands leave the working tree as it is. *)
Definition shell (c : Command) (w : World) : string + World :=
  match failing w !! commandLine c with
  | Some stderr => inl stderr
  | None =>
      match c with
      | GitMv source destination =>
          match files w !! source, files w !! destination with
          | None, _ => inl "fatal: bad source"
          | Some _, Some _ => inl "fatal: destination exists"
          | Some content, None =>
              inr (MkWorld (<[destination := content]> (delete source (files w)))
                           (failing w))
          end
      | _ => inr w
      end
  end.

(** [runCommand] (lines 9-17): the promise resolves, or is rejected with
    the error of [exec] after the standard error output has been printed
    unless [suppressErrors] is set. *)
Definition runCommand (c : Command) (suppressErrors : bool) : M () := λ w,
  match shell c w with
  | inr w' => MkRun (Returned ()) w' [Exec (commandLine c)]
  | inl stderr =>
      MkRun (Thrown ("Command failed: " +:+ commandLine c +:+ newline +:+ stderr))
            w
            (Exec (commandLine c) ::
             if suppressErrors then []
             else [Error ("Command failed: " +:+ stderr)])
  end.

(** [fs.mkdir(dir, { recursive: true })]: directories are implicit in
    [files], the call is only recorded. *)
Definition mkdir (dir : string) : M () := emit (Mkdir dir).

(** [fs.writeFile(path, content)] *)
Definition writeFile (path : string) (content : Content) : M () := λ w,
  MkRun (Returned ()) (MkWorld (<[path := content]> (files w)) (failing w))
        [WriteFile path content].

Definition consoleLog (message : string) : M () := emit (Log message).
Definition consoleWarn (message : string) : M () := emit (Warn message).
Definition consoleError (message : string) : M () := emit (Error message).

(** ** The program *)

Section Program.

(** [REPO_PATH] (line 6): the directory of the script. *)
Variable REPO_PATH : string.

(** [JSON.stringify(JSON.parse(flowData), null, 4)] (line 144): the
    payload parsed and printed again with an indentation of four;
    [None] when [JSON.parse] throws. *)
Variable reformat : string → option string.

(** The message of the [SyntaxError] that [JSON.parse] throws. *)
Definition syntaxErrorMessage : string := "SyntaxError: Unexpected token in JSON".

Definition stateFilePath (instanceName : string) : string :=
  Path.join [REPO_PATH; ".flow_state_" +:+ instanceName +:+ ".json"].

(** [getLastKnownState] (lines 88-93): a missing file and a file that
    does not parse both give the empty mapping. *)
Definition getLastKnownState (instanceName : string)
    : M (gmap string FlowState.t) := λ w,
  match files w !! stateFilePath instanceName with
  | Some (StateDoc st) => MkRun (Returned st) w []
  | Some (Text _) => MkRun (Returned ∅) w []
  | None => MkRun (Returned ∅) w []
  end.

(** [saveState] (lines 95-98) *)
Definition saveState (state : gmap string FlowState.t)
    (instanceName : string) : M () :=
  writeFile (stateFilePath instanceName) (StateDoc state).

Definition instanceDir (instance : Instance.t) : string :=
  Path.join [REPO_PATH; "flows"; Instance.name instance].

(** Lines 133, 137-139. *)
Definition flowType (flow : Flow.t) : string :=
  JS.toLowerCase (JS.orElse (Flow.type flow) "uncategorized").

Definition safeName (flow : Flow.t) : string :=
  JS.replaceSpaceSlash (Flow.name flow).

Definition uniqueFileName (flow : Flow.t) : string :=
  safeName flow +:+ "_id_" +:+ JS.sliceLast4 (Flow.id flow) +:+ ".json".

(** The entry of [changedFiles] for a flow (line 146). *)
Definition changedFile (instance : Instance.t) (flow : Flow.t) : string :=
  "flows/" +:+ Instance.name instance +:+ "/" +:+ flowType flow
    +:+ "/" +:+ uniqueFileName flow.

(** The file a flow is written to (lines 134, 143). *)
Definition filePath (instance : Instance.t) (flow : Flow.t) : string :=
  Path.join [Path.join [instanceDir instance; flowType flow];
             uniqueFileName flow].

(** The test of line 141:
    [!lastState[id] || lastState[id].updatedDate !== updatedDate]. *)
Definition changed (lastState : gmap string FlowState.t) (flow : Flow.t)
    : bool :=
  match lastState !! Flow.id flow with
  | None => true
  | Some recorded =>
      negb (bool_decide (FlowState.updatedDate recorded = Flow.updatedDate flow))
  end.

(** The state entry of line 149. *)
Definition stateEntry (flow : Flow.t) : FlowState.t :=
  FlowState.Build (Flow.updatedDate flow) (Some (safeName flow))
                  (Some (uniqueFileName flow)) (Some (flowType flow)).

(** The body of the loop of lines 129-150, on the pair
    [(currentState, changedFiles)]. *)
Definition writeFlow (instance : Instance.t)
    (lastState : gmap string FlowState.t)
    (acc : gmap string FlowState.t * list string) (flow : Flow.t)
    : M (gmap string FlowState.t * list string) :=
  match Flow.payload flow with
  | None => mret acc
  | Some flowData =>
      let typeDir := Path.join [instanceDir instance; flowType flow] in
      mkdir typeDir;;
      changedFiles ←
        (if changed lastState flow then
           consoleLog ("    -> Change detected in flow: '" +:+ Flow.name flow
                       +:+ "' (Type: " +:+ flowType flow +:+ ", Saving to "
                       +:+ uniqueFileName flow +:+ ")");;
           formattedFlowData ←
             match reformat flowData with
             | Some text => mret text
             | None => throw syntaxErrorMessage
             end;
           writeFile (Path.join [typeDir; uniqueFileName flow])
                     (Text formattedFlowData);;
           mret (acc.2 ++ [changedFile instance flow])
         else mret acc.2);
      mret (<[Flow.id flow := stateEntry flow]> acc.1, changedFiles)
  end.

(** Lines 158-164 for a recorded entry. *)
Definition fileNameToMove (id : string) (flowState : FlowState.t) : string :=
  JS.orElse (FlowState.fileName flowState)
    (JS.interp (FlowState.name flowState) +:+ "_id_" +:+ JS.sliceLast4 id
       +:+ ".json").

Definition sourceTypeDir (instance : Instance.t) (flowState : FlowState.t)
    : string :=
  Path.join [instanceDir instance;
             JS.orElse (FlowState.type flowState) "uncategorized"].

Definition sourcePath (instance : Instance.t) (id : string)
    (flowState : FlowState.t) : string :=
  Path.join [sourceTypeDir instance flowState; fileNameToMove id flowState].

Definition deletedDir (instance : Instance.t) (flowState : FlowState.t)
    : string :=
  Path.join [sourceTypeDir instance flowState; "deleted"].

Definition destinationPath (instance : Instance.t) (id : string)
    (flowState : FlowState.t) : string :=
  Path.join [deletedDir instance flowState; fileNameToMove id flowState].

(** [currentFlowIds] (line 152) *)
Definition currentFlowIds (flows : list Flow.t) : gset string :=
  list_to_set (Flow.id <$> flows).

(** The body of the loop of lines 155-178, on the pair
    [(currentState, movedFiles)]; [entry] is a key of [lastState] with
    its value. *)
Definition archiveFlow (instance : Instance.t) (flows : list Flow.t)
    (acc : gmap string FlowState.t * list string)
    (entry : string * FlowState.t)
    : M (gmap string FlowState.t * list string) :=
  let '(id, flowState) := entry in
  if bool_decide (id ∈ currentFlowIds flows) then mret acc
  else
    consoleLog ("    -> Archiving deleted flow: '" +:+ fileNameToMove id flowState
                +:+ "' from " +:+ JS.interp (FlowState.type flowState)
                +:+ " folder");;
    tryCatch
      (mkdir (deletedDir instance flowState);;
       runCommand (GitMv (sourcePath instance id flowState)
                         (destinationPath instance id flowState)) false;;
       mret (delete id acc.1,
             acc.2 ++ [destinationPath instance id flowState]))
      (λ moveError,
         consoleWarn ("    -> Could not archive " +:+ fileNameToMove id flowState
                      +:+ ", it may have been manually removed.");;
         mret (delete id acc.1, acc.2)).

(** Lines 125-178: both loops, from the flows of the instance and its
    last known state to the new state, the files written and the files
    moved. *)
Definition reconcile (instance : Instance.t) (flows : list Flow.t)
    (lastState : gmap string FlowState.t)
    : M (gmap string FlowState.t * list string * list string) :=
  '(currentState, changedFiles) ←
    forEach (writeFlow instance lastState) flows (lastState, []);
  '(currentState, movedFiles) ←
    forEach (archiveFlow instance flows) (map_to_list lastState)
            (currentState, []);
  mret (currentState, changedFiles, movedFiles).

(** Lines 180-192. *)
Definition finish (instance : Instance.t)
    (r : gmap string FlowState.t * list string * list string)
    : M SyncResult.t :=
  let '(currentState, changedFiles, movedFiles) := r in
  (if bool_decide (0 < length changedFiles) || bool_decide (0 < length movedFiles)
   then
     saveState currentState (Instance.name instance);;
     consoleLog ("    -> " +:+ pretty (length changedFiles) +:+ " flows updated, "
                 +:+ pretty (length movedFiles) +:+ " flows archived for "
                 +:+ Instance.name instance)
   else
     consoleLog ("    -> No changes detected for " +:+ Instance.name instance));;
  mret (SyncResult.Build (Instance.name instance) changedFiles movedFiles
          (".flow_state_" +:+ Instance.name instance +:+ ".json")).

(** Lines 124-192: the cycle of one instance once its flows are known. *)
Definition syncFetchedFlows (instance : Instance.t) (flows : list Flow.t)
    : M SyncResult.t :=
  lastState ← getLastKnownState (Instance.name instance);
  r ← reconcile instance flows lastState;
  finish instance r.

(** [syncInstanceFlows] (lines 100-193); the answer of the remote
    instance is an argument. *)
Definition syncInstanceFlows (instance : Instance.t) (fetched : Fetched)
    : M SyncResult.t :=
  consoleLog ("  -> Syncing flows from instance: " +:+ Instance.name instance
              +:+ " (" +:+ Instance.url instance +:+ ")");;
  match fetched with
  | FetchRejected message => throw message
  | Response false status rawBody _ =>
      consoleError ("  -> API response error for " +:+ Instance.name instance
                    +:+ ": " +:+ rawBody);;
      throw ("API request failed for " +:+ Instance.name instance
             +:+ " with status " +:+ pretty status +:+ ": " +:+ rawBody)
  | Response true _ rawBody (NotJson syntaxError) =>
      consoleError ("  -> API did not return valid JSON for "
                    +:+ Instance.name instance +:+ ". Response was: "
                    +:+ rawBody);;
      throw syntaxError
  | Response true _ _ (Json flows) => syncFetchedFlows instance flows
  end.

(** The accumulators of [syncFlows] (lines 229-231). *)
Record Totals := MkTotals {
  allChangedFiles : list string;
  allMovedFiles : list string;
  allStateFiles : list string
}.

(** The body of the loop of lines 233-245. *)
Definition syncOne (acc : Totals) (job : Instance.t * Fetched) : M Totals :=
  tryCatch
    (result ← syncInstanceFlows job.1 job.2;
     mret (MkTotals
             (allChangedFiles acc ++ SyncResult.changedFiles result)
             (allMovedFiles acc ++ SyncResult.movedFiles result)
             (if bool_decide (0 < length (SyncResult.changedFiles result))
                 || bool_decide (0 < length (SyncResult.movedFiles result))
              then allStateFiles acc ++ [SyncResult.stateFile result]
              else allStateFiles acc)))
    (λ message,
       consoleError ("  -> Failed to sync instance " +:+ Instance.name job.1
                     +:+ ": " +:+ message);;
       mret acc).

(** Lines 258-261. *)
Definition commitMessage (changedCount movedCount : nat) : string :=
  let commitParts :=
    (if bool_decide (0 < changedCount)
     then [pretty changedCount +:+ " updated"] else [])
    ++ (if bool_decide (0 < movedCount)
        then [pretty movedCount +:+ " archived"] else []) in
  "Sync: " +:+ JS.join ", " commitParts +:+ " flow(s)".

(** The push errors of lines 271-278. *)
Definition pushDenied (message : string) : bool :=
  let errorMsg := JS.toLowerCase message in
  JS.includes errorMsg "origin does not appear to be a git repository"
  || JS.includes errorMsg "could not read from remote repository"
  || JS.includes errorMsg "permission denied"
  || JS.includes errorMsg "denied to"
  || JS.includes errorMsg "unable to access"
  || JS.includes errorMsg "error: 403".

(** Lines 247-292. *)
Definition commitAndPush (totals : Totals) : M () :=
  if bool_decide (0 < length (allChangedFiles totals))
     || bool_decide (0 < length (allMovedFiles totals))
  then
    tryCatch
      (consoleLog "  -> Committing changes...";;
       runCommand GitConfigUserName false;;
       runCommand GitConfigUserEmail false;;
       let filesToAdd :=
         JS.join " " (allChangedFiles totals ++ allStateFiles totals) in
       (if JS.allSpace filesToAdd then mret ()
        else runCommand (GitAdd filesToAdd) false);;
       runCommand (GitCommit (commitMessage (length (allChangedFiles totals))
                                            (length (allMovedFiles totals))))
                  false;;
       consoleLog "  -> Pushing to remote repository...";;
       tryCatch
         (runCommand GitPush true;;
          consoleLog "  -> Multi-instance sync successful!")
         (λ pushError,
            if pushDenied pushError then
              consoleError "Error: No valid git remote configured or you do not have permission to push. Set GIT_REMOTE_URL in your .env file or add a remote manually.";;
              consoleLog "Your flows have still been saved locally and are up to date on your machine."
            else
              consoleError ("  -> Git push process failed: " +:+ pushError)))
      (λ message, consoleError ("Error: " +:+ message))
  else consoleLog "  -> No changes detected across all instances.".

(** Lines 233-245: one instance after the other. *)
Definition syncAll (jobs : list (Instance.t * Fetched)) : M Totals :=
  forEach syncOne jobs (MkTotals [] [] []).

(** [syncFlows] from line 227 on: the repository has been prepared and
    the enabled instances have been loaded; [jobs] pairs each of them
    with the answer of its remote instance. *)
Definition syncFlows (jobs : list (Instance.t * Fetched)) : M () :=
  mkdir (Path.join [REPO_PATH; "flows"]);;
  totals ← syncAll jobs;
  commitAndPush totals.

End Program.

(** ** Vocabulary of the properties *)

(** The files written during a run, in order. *)
Definition writes (evs : list Event) : list (string * Content) :=
  omap (λ e, match e with WriteFile p c => Some (p, c) | _ => None end) evs.

(** The command lines run during a run, in order. *)
Definition execs (evs : list Event) : list string :=
  omap (λ e, match e with Exec c => Some c | _ => None end) evs.

(** The warnings printed during a run, in order. *)
Definition warnings (evs : list Event) : list string :=
  omap (λ e, match e with Warn m => Some m | _ => None end) evs.

(** The contents held by a working tree, wherever they are. *)
Definition holds (w : World) (c : Content) : Prop :=
  ∃ p, files w !! p = Some c.

(** The entries of the last state that the archival loop acts on: those
    whose id is not among the ids of the flows (line 156). *)
Definition gone (flows : list Flow.t) (entry : string * FlowState.t) : Prop :=
  entry.1 ∉ currentFlowIds flows.

#[global] Instance gone_dec flows entry : Decision (gone flows entry).
Proof. unfold gone. apply _. Defined.

(** The command of line 170 for an entry of the last state. *)
Definition moveCommand (REPO_PATH : string) (instance : Instance.t)
    (entry : string * FlowState.t) : Command :=
  GitMv (sourcePath REPO_PATH instance entry.1 entry.2)
        (destinationPath REPO_PATH instance entry.1 entry.2).

(** The flows the loop of lines 129-150 looks at, and those it writes. *)
Definition hasPayload (flow : Flow.t) : Prop := is_Some (Flow.payload flow).

#[global] Instance hasPayload_dec flow : Decision (hasPayload flow).
Proof. unfold hasPayload. apply _. Defined.

Definition toWrite (lastState : gmap string FlowState.t) (flow : Flow.t)
    : Prop :=
  hasPayload flow ∧ changed lastState flow = true.

#[global] Instance toWrite_dec lastState flow : Decision (toWrite lastState flow).
Proof. unfold toWrite. apply _. Defined.

(** The state after the loop of lines 129-150: every flow with a payload
    has been recorded, in order (line 149). *)
Definition recordAll (flows : list Flow.t) (state : gmap string FlowState.t)
    : gmap string FlowState.t :=
  foldl (λ st flow,
           if decide (hasPayload flow)
           then <[Flow.id flow := stateEntry flow]> st else st)
        state flows.

(** The value [syncInstanceFlows] returns for given lists (lines 187-192). *)
Definition resultOf (instance : Instance.t)
    (changedFiles movedFiles : list string) : SyncResult.t :=
  SyncResult.Build (Instance.name instance) changedFiles movedFiles
    (".flow_state_" +:+ Instance.name instance +:+ ".json").

(** Every payload that has to be written parses. *)
Definition parseable (reformat : string → option string)
    (lastState : gmap string FlowState.t) (flows : list Flow.t) : Prop :=
  ∀ flow flowData,
    flow ∈ flows → Flow.payload flow = Some flowData →
    changed lastState flow = true → is_Some (reformat flowData).

(** Two strings that differ only in letter case: the same length, and at
    every position the same code unit or an upper-case letter and the
    letter 32 code units above it. *)
Definition caseVariant (a b : ascii) : Prop :=
  a = b
  ∨ (JS.isUpper a = true ∧ JS.code b = JS.code a + 32)
  ∨ (JS.isUpper b = true ∧ JS.code a = JS.code b + 32).

Inductive sameUpToCase : string → string → Prop :=
| sameUpToCase_nil : sameUpToCase EmptyString EmptyString
| sameUpToCase_cons a b s t :
    caseVariant a b → sameUpToCase s t →
    sameUpToCase (String a s) (String b t).


(** A computation that leaves the failing commands of the environment as
    they are and only runs command lines that satisfy [P]. *)
Definition tame (P : string → Prop) {A} (m : M A) : Prop :=
  ∀ w, failing (world (m w)) = failing w ∧ Forall P (execs (events (m w))).


(** The scenario of the specification: one chat flow named Test Flow. *)
Definition examplePayload : string :=
  "{" +:+ quote +:+ "a" +:+ quote +:+ ":1}".

Definition exampleFormatted : string :=
  "{" +:+ newline +:+ "    " +:+ quote +:+ "a" +:+ quote +:+ ": 1"
    +:+ newline +:+ "}".

(** [JSON.stringify(JSON.parse(s), null, 4)] on the payload of the
    scenario; other texts are taken not to parse. *)
Definition exampleReformat (s : string) : option string :=
  if bool_decide (s = examplePayload) then Some exampleFormatted else None.

Definition exampleInstance : Instance.t :=
  Instance.Build "inst" "http://localhost:3000" "key" true.

Definition exampleFlow : Flow.t :=
  Flow.Build "abc123" "Test Flow" (Some examplePayload) (Some "T1")
             (Some "chatflow").

Definition exampleEntry : FlowState.t :=
  FlowState.Build (Some "T1") (Some "Test_Flow")
                  (Some "Test_Flow_id_c123.json") (Some "chatflow").

Definition emptyWorld : World := MkWorld ∅ ∅.

(** The answer of the remote instance in the scenario, and the answer of
    an instance that has no flow left. *)
Definition exampleFetched : Fetched :=
  Response true 200 "(body)" (Json [exampleFlow]).

Definition emptyFetched : Fetched := Response true 200 "[]" (Json []).

(** A working tree in which the state file of the instance records the flow
    of the scenario and the file of the flow is there. *)
Definition trackedWorld : World :=
  MkWorld {[ "/app/.flow_state_inst.json" := StateDoc {[ "abc123" := exampleEntry ]};
             "/app/flows/inst/chatflow/Test_Flow_id_c123.json"
               := Text exampleFormatted ]} ∅.

(** The same, the file of the flow having been removed by hand. *)
Definition staleWorld : World :=
  MkWorld {[ "/app/.flow_state_inst.json"
               := StateDoc {[ "abc123" := exampleEntry ]} ]} ∅.

(** Flows like that of the scenario, one without payload and one with an
    empty type. *)
Definition emptyFlow : Flow.t :=
  Flow.Build "abc123" "Test Flow" None (Some "T1") (Some "chatflow").

Definition untypedFlow : Flow.t :=
  Flow.Build "abc123" "Test Flow" (Some examplePayload) (Some "T1") (Some "").

(** ** The configuration (lines 67-86) *)

Definition backslashChar : ascii := ascii_of_nat 92.
Definition quoteChar : ascii := ascii_of_nat 34.

(** The two code units the expression of line 74 looks for. *)
Definition escapedQuote : string :=
  String backslashChar (String quoteChar EmptyString).

(** [s.replace(/\\"/g, '"')] (line 75): every backslash that a double quote
    follows is dropped, from left to right. *)
Fixpoint unescapeQuotes (s : string) : string :=
  match s with
  | EmptyString => EmptyString
  | String a rest =>
      match rest with
      | String b r =>
          if bool_decide (a = backslashChar) && bool_decide (b = quoteChar)
          then String b (unescapeQuotes r)
          else String a (unescapeQuotes rest)
      | EmptyString => s
      end
  end.

Section Configuration.

(** [JSON.parse] on the text of the configuration, as the list of the
    instances it describes; [None] when it throws. A text that parses is
    taken to describe an array of instances. *)
Variable parseInstances : string → option (list Instance.t).

(** [loadInstancesConfig] (lines 67-86); the argument is the value of the
    environment variable [FLOWISE_INSTANCES_JSON]. *)
Definition loadInstancesConfig (env : option string) : M (list Instance.t) :=
  if negb (JS.truthy env) then
    throw "FLOWISE_INSTANCES_JSON env variable is required."
  else
    let jsonString := default "" env in
    let jsonString :=
      if JS.includes jsonString escapedQuote then unescapeQuotes jsonString
      else jsonString in
    match parseInstances jsonString with
    | None => throw "FLOWISE_INSTANCES_JSON env is not valid JSON."
    | Some instances =>
        let enabledInstances :=
          filter (λ instance, Instance.enabled instance = true) instances in
        if bool_decide (length enabledInstances = 0) then
          throw "No enabled instances found in configuration. Please enable at least one instance."
        else mret enabledInstances
    end.

End Configuration.

(** ** Vocabulary of further properties *)

(** A response that [syncInstanceFlows] does not go on with: the request
    was rejected, the status was not a success, or the body did not
    parse. *)
Definition fetchFailed (fetched : Fetched) : Prop :=
  match fetched with
  | Response true _ _ (Json _) => False
  | _ => True
  end.

(** The message of the error that lines 107-122 throw for such a
    response. *)
Definition fetchError (instance : Instance.t) (fetched : Fetched) : string :=
  match fetched with
  | FetchRejected message => message
  | Response false status rawBody _ =>
      "API request failed for " +:+ Instance.name instance +:+ " with status "
        +:+ pretty status +:+ ": " +:+ rawBody
  | Response true _ _ (NotJson syntaxError) => syntaxError
  | Response true _ _ (Json _) => ""
  end.

Fixpoint stringChars (s : string) : list ascii :=
  match s with
  | EmptyString => []
  | String c r => c :: stringChars r
  end.

(** The content of a written flow file is text. *)
Definition isText (write : string * Content) : Prop :=
  match write.2 with
  | Text _ => True
  | StateDoc _ => False
  end.

(** The markers of lines 272-277. *)
Definition pushDeniedMarkers : list string :=
  ["origin does not appear to be a git repository";
   "could not read from remote repository";
   "permission denied";
   "denied to";
   "unable to access";
   "error: 403"].

(** ** The address of the request (line 106) *)

(** [s.replace(/\/+$/, '')]: the slashes at the end of [s] are dropped. *)
Fixpoint stripTrailingSlashes (s : string) : string :=
  match s with
  | EmptyString => EmptyString
  | String c r =>
      match stripTrailingSlashes r with
      | EmptyString =>
          if bool_decide (c = "/"%char) then EmptyString
          else String c EmptyString
      | r' => String c r'
      end
  end.

Definition apiUrl (instance : Instance.t) : string :=
  stripTrailingSlashes (Instance.url instance) +:+ "/api/v1/chatflows".

(** [n] slashes. *)
Fixpoint slashes (n : nat) : string :=
  match n with
  | 0 => EmptyString
  | S n => String "/" (slashes n)
  end.

(** A string that starts with a code unit that is not white space. *)
Definition startsVisible (s : string) : Prop :=
  match s with
  | String c _ => JS.isSpace c = false
  | EmptyString => False
  end.

(** What the loop of lines 233-245 keeps true of its totals: the paths to
    stage start with a visible code unit, and there is a state file among
    them as soon as a file was written or moved. *)
Definition stagedTotals (totals : Totals) : Prop :=
  Forall startsVisible (allChangedFiles totals) ∧
  Forall startsVisible (allStateFiles totals) ∧
  (allChangedFiles totals ≠ [] ∨ allMovedFiles totals ≠ [] →
   allStateFiles totals ≠ []).


(** A configuration of two instances, the second one disabled, and the
    parser on that text alone. *)
Definition exampleConfig : list Instance.t :=
  [exampleInstance; Instance.Build "dev" "http://localhost:3001" "key" false].

Definition exampleParse (s : string) : option (list Instance.t) :=
  if bool_decide (s = "(config)") then Some exampleConfig else None.

(** * Properties *)

Example sliceLast4_abc123 : JS.sliceLast4 "abc123" = "c123".
Proof. reflexivity. Qed.

Example sliceLast4_short : JS.sliceLast4 "ab" = "ab".
Proof. reflexivity. Qed.

Example replaceSpaceSlash_ex : JS.replaceSpaceSlash "Test Flow/v2" = "Test_Flow_v2".
Proof. reflexivity. Qed.

Example toLowerCase_ex : JS.toLowerCase "ChatFlow" = "chatflow".
Proof. reflexivity. Qed.

Example join_ex : Path.join ["/app"; "flows"; "inst"] = "/app/flows/inst".
Proof. vm_compute. reflexivity. Qed.

Example join_dots : Path.join ["/app/flows"; "../x/./y/"] = "/app/x/y/".
Proof. vm_compute. reflexivity. Qed.

Example join_relative_up : Path.join ["a"; "../../b"] = "../b".
Proof. vm_compute. reflexivity. Qed.

(** ** Computations *)



Ltac unfold_M :=
  unfold mbind, M_bind, mret, M_ret, throw, tryCatch, consoleLog,
    consoleWarn, consoleError, mkdir, emit, writeFile in *.

Lemma run_eta {A} (r : Run A) : MkRun (outcome r) (world r) (events r) = r.
Proof. by destruct r. Qed.

Lemma bind_ret_l {A B} (a : A) (k : A → M B) (w : World) :
  (mret a ≫= k) w = k a w.
Proof. unfold_M. by destruct (k a w). Qed.

Lemma bind_returned {A B} (m : M A) (k : A → M B) (w : World) (a : A) :
  outcome (m w) = Returned a →
  (m ≫= k) w
  = MkRun (outcome (k a (world (m w)))) (world (k a (world (m w))))
          (events (m w) ++ events (k a (world (m w)))).
Proof.
  intros H. unfold_M. destruct (m w) as [result w1 evs1]. cbn in *. subst.
  by destruct (k a w1).
Qed.

Lemma bind_thrown {A B} (m : M A) (k : A → M B) (w : World) (e : string) :
  outcome (m w) = Thrown e →
  (m ≫= k) w = MkRun (Thrown e) (world (m w)) (events (m w)).
Proof. intros H. unfold_M. destruct (m w). cbn in *. by subst. Qed.

Lemma bind_run {A B} (m : M A) (k : A → M B) w a w1 evs1 :
  m w = MkRun (Returned a) w1 evs1 →
  (m ≫= k) w
  = MkRun (outcome (k a w1)) (world (k a w1)) (evs1 ++ events (k a w1)).
Proof. intros H. unfold_M. rewrite H. by destruct (k a w1). Qed.

Lemma bind_quiet {A B} (m : M A) (k : A → M B) w a w1 :
  m w = MkRun (Returned a) w1 [] → (m ≫= k) w = k a w1.
Proof. intros H. unfold_M. rewrite H. by destruct (k a w1). Qed.

Lemma tryCatch_returned {A} (body : M A) handler (w : World) (a : A) :
  outcome (body w) = Returned a → tryCatch body handler w = body w.
Proof. intros H. unfold tryCatch. destruct (body w). cbn in *. by subst. Qed.

Lemma tryCatch_thrown {A} (body : M A) handler (w : World) (e : string) :
  outcome (body w) = Thrown e →
  tryCatch body handler w
  = MkRun (outcome (handler e (world (body w))))
          (world (handler e (world (body w))))
          (events (body w) ++ events (handler e (world (body w)))).
Proof.
  intros H. unfold tryCatch. destruct (body w) as [result w1 evs1].
  cbn in *. subst. by destruct (handler e w1).
Qed.

Lemma forEach_cons {A B} (body : B → A → M B) x xs acc :
  forEach body (x :: xs) acc = (body acc x ≫= forEach body xs).
Proof. reflexivity. Qed.

Lemma forEach_singleton {A B} (body : B → A → M B) x acc w :
  forEach body [x] acc w = body acc x w.
Proof.
  cbn [forEach]. unfold mbind, M_bind, mret, M_ret.
  destruct (body acc x w) as [[a|e] w' evs]; cbn; by rewrite ?app_nil_r.
Qed.

Lemma forEach_app {A B} (body : B → A → M B) xs ys acc w :
  forEach body (xs ++ ys) acc w = (forEach body xs acc ≫= forEach body ys) w.
Proof.
  revert acc w. induction xs as [|x xs IH]; intros acc w.
  - simpl. by rewrite bind_ret_l.
  - simpl. unfold_M. destruct (body acc x w) as [[a|e] w1 evs1]; [|done].
    rewrite IH. unfold_M.
    destruct (forEach body xs a w1) as [[a'|e'] w2 evs2]; [|done].
    destruct (forEach body ys a' w2). by rewrite app_assoc.
Qed.

Lemma writes_app evs evs' : writes (evs ++ evs') = writes evs ++ writes evs'.
Proof. apply omap_app. Qed.

Lemma execs_app evs evs' : execs (evs ++ evs') = execs evs ++ execs evs'.
Proof. apply omap_app. Qed.

Lemma warnings_app evs evs' :
  warnings (evs ++ evs') = warnings evs ++ warnings evs'.
Proof. apply omap_app. Qed.

(** ** The shell *)

Lemma shell_failing c w w' : shell c w = inr w' → failing w' = failing w.
Proof.
  unfold shell. destruct (failing w !! commandLine c); [done|].
  destruct c; try (by intros [= <-]).
  destruct (files w !! source); [|done].
  destruct (files w !! destination); [done|]. by intros [= <-].
Qed.

Lemma shell_holds c w w' content :
  shell c w = inr w' → holds w content → holds w' content.
Proof.
  unfold shell. destruct (failing w !! commandLine c); [done|].
  destruct c; try (by intros [= <-]).
  destruct (files w !! source) as [moved|] eqn:Hs; [|done].
  destruct (files w !! destination) eqn:Hd; [done|].
  intros [= <-] [p Hp]. unfold holds. simpl.
  destruct (decide (p = source)) as [->|Hne].
  - exists destination. rewrite lookup_insert_eq. congruence.
  - exists p. rewrite lookup_insert_ne by congruence.
    by rewrite lookup_delete_ne.
Qed.

Lemma shell_git_mv source destination w w' :
  shell (GitMv source destination) w = inr w' →
  ∃ content,
    files w !! source = Some content ∧ files w !! destination = None ∧
    files w' = <[destination := content]> (delete source (files w)).
Proof.
  unfold shell. destruct (failing w !! _); [done|].
  destruct (files w !! source) as [content|]; [|done].
  destruct (files w !! destination); [done|].
  intros [= <-]. by exists content.
Qed.

(** ** The archival loop (lines 155-178) *)

Section Archival.

Variable REPO_PATH : string.
Variable instance : Instance.t.
Variable flows : list Flow.t.

Lemma archiveFlow_present acc id flowState w :
  id ∈ currentFlowIds flows →
  archiveFlow REPO_PATH instance flows acc (id, flowState) w
  = MkRun (Returned acc) w [].
Proof. intros Hin. unfold archiveFlow. by rewrite bool_decide_eq_true_2. Qed.

Lemma archiveFlow_gone acc id flowState w :
  id ∉ currentFlowIds flows →
  let r := archiveFlow REPO_PATH instance flows acc (id, flowState) w in
  failing (world r) = failing w ∧
  execs (events r) = [commandLine (moveCommand REPO_PATH instance (id, flowState))] ∧
  writes (events r) = [] ∧
  ((shell (moveCommand REPO_PATH instance (id, flowState)) w = inr (world r) ∧
    outcome r = Returned (delete id acc.1,
                          acc.2 ++ [destinationPath REPO_PATH instance id flowState]) ∧
    warnings (events r) = [])
   ∨ (world r = w ∧
      (∃ stderr, shell (moveCommand REPO_PATH instance (id, flowState)) w = inl stderr) ∧
      outcome r = Returned (delete id acc.1, acc.2) ∧
      warnings (events r)
      = ["    -> Could not archive " +:+ fileNameToMove id flowState
         +:+ ", it may have been manually removed."])).
Proof.
  intros Hout r. subst r. unfold archiveFlow.
  rewrite bool_decide_eq_false_2 by done.
  unfold_M. unfold runCommand, moveCommand. simpl.
  destruct (shell _ w) as [stderr|w'] eqn:Hsh; simpl.
  - split_and!; try done. right. split_and!; try done. by eexists.
  - split_and!; try done.
    + by apply shell_failing in Hsh.
    + by left.
Qed.

Lemma archiveLoop_quiet entries acc w :
  (∀ entry, entry ∈ entries → entry.1 ∈ currentFlowIds flows) →
  forEach (archiveFlow REPO_PATH instance flows) entries acc w
  = MkRun (Returned acc) w [].
Proof.
  induction entries as [|[id flowState] entries IH]; intros Hall; [done|].
  rewrite forEach_cons.
  rewrite (bind_quiet _ _ _ _ _ (archiveFlow_present acc id flowState w
             (Hall (id, flowState) ltac:(left)))).
  rewrite IH; [done|]. intros entry Hin. apply Hall. by right.
Qed.

Lemma archiveLoop_spec entries acc w :
  let r := forEach (archiveFlow REPO_PATH instance flows) entries acc w in
  let lost := filter (gone flows) entries in
  failing (world r) = failing w ∧
  writes (events r) = [] ∧
  execs (events r) = (commandLine ∘ moveCommand REPO_PATH instance) <$> lost ∧
  (∀ content, holds w content → holds (world r) content) ∧
  ∃ currentState movedFiles,
    outcome r = Returned (currentState, acc.2 ++ movedFiles) ∧
    (∀ id, currentState !! id
           = if decide (id ∈ lost.*1) then None else acc.1 !! id) ∧
    movedFiles `sublist_of`
      ((λ entry, destinationPath REPO_PATH instance entry.1 entry.2) <$> lost) ∧
    length movedFiles + length (warnings (events r)) = length lost ∧
    (movedFiles = [] → world r = w).
Proof.
  revert acc w. induction entries as [|[id flowState] entries IH]; intros acc w.
  - simpl. split_and!; try done. exists acc.1, []. rewrite app_nil_r.
    split_and!; try done. by destruct acc.
  - cbv zeta. rewrite forEach_cons.
    destruct (decide (id ∈ currentFlowIds flows)) as [Hin|Hout].
    + rewrite (bind_quiet _ _ _ _ _ (archiveFlow_present acc id flowState w Hin)).
      rewrite filter_cons_False by (unfold gone; simpl; tauto).
      apply IH.
    + rewrite filter_cons_True by done.
      pose proof (archiveFlow_gone acc id flowState w Hout) as Hstep.
      cbv zeta in Hstep. destruct Hstep as (Hf & Hx & Hw & Hcase).
      assert (∃ acc',
                outcome (archiveFlow REPO_PATH instance flows acc (id, flowState) w)
                = Returned acc' ∧ acc'.1 = delete id acc.1)
        as (acc' & Hacc' & Hfst).
      { destruct Hcase as [(_ & -> & _)|(_ & _ & -> & _)]; by eexists. }
      rewrite (bind_returned _ _ _ _ Hacc'). cbn [outcome world events].
      specialize (IH acc'
        (world (archiveFlow REPO_PATH instance flows acc (id, flowState) w))).
      cbv zeta in IH.
      set (step := archiveFlow REPO_PATH instance flows acc (id, flowState) w) in *.
      clearbody step.
      destruct IH as (IHf & IHw & IHx & IHh & cs & mv & IHo & IHl & IHs & IHn & IHq).
      split_and!.
      * congruence.
      * by rewrite writes_app, Hw, IHw.
      * by rewrite execs_app, Hx, IHx.
      * intros content Hc. apply IHh.
        destruct Hcase as [(Hsh & _)|(-> & _)]; [|done].
        by eapply shell_holds.
      * assert (∀ i, cs !! i
                     = if decide (i ∈ ((id, flowState) :: filter (gone flows) entries).*1)
                       then None else acc.1 !! i) as Hlookup.
        { intros i. rewrite IHl, Hfst, fmap_cons. cbn [fst].
          destruct (decide (i = id)) as [->|Hne].
          - rewrite lookup_delete_eq, (decide_True (P := id ∈ id :: _)) by (by left).
            by case_decide.
          - rewrite lookup_delete_ne by done.
            destruct (decide (i ∈ (filter (gone flows) entries).*1)) as [Hin|Hin].
            + by rewrite decide_True by (by right).
            + rewrite decide_False; [done|]. by intros [?|?]%elem_of_cons. }
        destruct Hcase as [(Hsh & Hret & Hwarn)|(Hworld & Hfail & Hret & Hwarn)];
          rewrite Hret in Hacc'; injection Hacc' as <-; cbn [fst snd] in *.
        -- exists cs, (destinationPath REPO_PATH instance id flowState :: mv).
           split_and!; try done.
           ++ rewrite IHo. by rewrite <- app_assoc.
           ++ rewrite fmap_cons. by constructor.
           ++ rewrite warnings_app, Hwarn. cbn [length app]. lia.
        -- exists cs, mv. split_and!; try done.
           ++ rewrite fmap_cons. by constructor.
           ++ rewrite warnings_app, Hwarn, length_app. cbn [length]. lia.
           ++ intros Hmv. rewrite IHq by done. done.
Qed.

End Archival.

(** ** The writing loop (lines 129-150) *)

Section Writing.

Variable REPO_PATH : string.
Variable reformat : string → option string.
Variable instance : Instance.t.
Variable lastState : gmap string FlowState.t.

Lemma writeFlow_skip acc flow w :
  Flow.payload flow = None →
  writeFlow REPO_PATH reformat instance lastState acc flow w
  = MkRun (Returned acc) w [].
Proof. intros H. unfold writeFlow. by rewrite H. Qed.

Lemma writeFlow_unchanged acc flow w :
  hasPayload flow → changed lastState flow = false →
  writeFlow REPO_PATH reformat instance lastState acc flow w
  = MkRun (Returned (<[Flow.id flow := stateEntry flow]> acc.1, acc.2)) w
          [Mkdir (Path.join [instanceDir REPO_PATH instance; flowType flow])].
Proof.
  intros [flowData H] Hsame. unfold writeFlow. rewrite H, Hsame. reflexivity.
Qed.

Lemma writeFlow_write acc flow flowData text w :
  Flow.payload flow = Some flowData → changed lastState flow = true →
  reformat flowData = Some text →
  let r := writeFlow REPO_PATH reformat instance lastState acc flow w in
  outcome r = Returned (<[Flow.id flow := stateEntry flow]> acc.1,
                        acc.2 ++ [changedFile instance flow]) ∧
  world r = MkWorld (<[filePath REPO_PATH instance flow := Text text]> (files w))
                    (failing w) ∧
  writes (events r) = [(filePath REPO_PATH instance flow, Text text)] ∧
  execs (events r) = [] ∧ warnings (events r) = [].
Proof.
  intros H Hch Hfmt. unfold writeFlow. rewrite H, Hch. unfold_M.
  rewrite Hfmt. done.
Qed.

Lemma writeFlow_throw acc flow flowData w :
  Flow.payload flow = Some flowData → changed lastState flow = true →
  reformat flowData = None →
  let r := writeFlow REPO_PATH reformat instance lastState acc flow w in
  outcome r = Thrown syntaxErrorMessage ∧ world r = w ∧
  writes (events r) = [] ∧ execs (events r) = [] ∧ warnings (events r) = [].
Proof.
  intros H Hch Hfmt. unfold writeFlow. rewrite H, Hch. unfold_M.
  rewrite Hfmt. done.
Qed.

Lemma toWrite_payload flow :
  toWrite lastState flow →
  ∃ flowData, Flow.payload flow = Some flowData ∧ changed lastState flow = true.
Proof. intros [[flowData H] Hch]. eauto. Qed.

Lemma parseable_cons flow flows :
  parseable reformat lastState (flow :: flows) ↔
  (∀ flowData, Flow.payload flow = Some flowData →
               changed lastState flow = true → is_Some (reformat flowData))
  ∧ parseable reformat lastState flows.
Proof.
  unfold parseable. split.
  - intros H. split; [intros d; apply H; left|].
    intros f d Hin. apply H. by right.
  - intros [Hhd Htl] f d [->|Hin]%elem_of_cons; [apply Hhd|by apply Htl].
Qed.

Lemma writeLoop_spec flows acc w :
  let r := forEach (writeFlow REPO_PATH reformat instance lastState) flows acc w in
  let wanted := filter (toWrite lastState) flows in
  failing (world r) = failing w ∧
  execs (events r) = [] ∧
  warnings (events r) = [] ∧
  (wanted = [] → world r = w ∧ writes (events r) = []) ∧
  (parseable reformat lastState flows ↔ ∃ result, outcome r = Returned result) ∧
  (∀ currentState changedFiles,
     outcome r = Returned (currentState, changedFiles) →
     currentState = recordAll flows acc.1 ∧
     changedFiles = acc.2 ++ (changedFile instance <$> wanted) ∧
     (writes (events r)).*1 = filePath REPO_PATH instance <$> wanted).
Proof.
  revert acc w. induction flows as [|flow flows IH]; intros acc w.
  - cbn. split_and!; try done.
    + split; [by eexists|]. intros _ f d Hin. by apply elem_of_nil in Hin.
    + intros cs ch [= ->]. cbn. by rewrite app_nil_r.
  - cbv zeta. rewrite forEach_cons, parseable_cons.
    destruct (Flow.payload flow) as [flowData|] eqn:Hp.
    2:{ rewrite (bind_quiet _ _ _ _ _
                   (writeFlow_skip acc flow w Hp)).
        rewrite filter_cons_False
          by (intros [[? Hs] _]; unfold hasPayload in *; congruence).
        specialize (IH acc w). cbv zeta in IH.
        destruct IH as (? & ? & ? & ? & Hpar & Hret). split_and!; try done.
        - rewrite <- Hpar. split; [tauto|]. intros ?. split; [done|tauto].
        - intros cs ch Ho. destruct (Hret cs ch Ho) as (-> & -> & ?).
          split_and!; try done. unfold recordAll. cbn [foldl].
          rewrite decide_False; [done|]. intros [? ?]. congruence. }
    assert (hasPayload flow) as Hhas by (by eexists).
    destruct (changed lastState flow) eqn:Hch.
    2:{ rewrite (bind_run _ _ _ _ _ _
                   (writeFlow_unchanged acc flow w Hhas Hch)).
        cbn [outcome world events app].
        rewrite filter_cons_False by (intros [_ ?]; congruence).
        specialize (IH (<[Flow.id flow := stateEntry flow]> acc.1, acc.2) w).
        cbv zeta in IH. cbn [fst snd] in IH.
        destruct IH as (? & ? & ? & ? & Hpar & Hret). split_and!; try done.
        - rewrite <- Hpar. split; [tauto|]. intros ?. split; [|tauto].
          intros d _ ?. congruence.
        - intros cs ch Ho. destruct (Hret cs ch Ho) as (-> & -> & ?).
          split_and!; try done. unfold recordAll. cbn [foldl].
          by rewrite decide_True. }
    rewrite filter_cons_True by done.
    destruct (reformat flowData) as [text|] eqn:Hfmt.
    + destruct (writeFlow_write acc flow flowData text w Hp Hch Hfmt)
        as (Ho & Hw & Hwr & Hx & Hwarn).
      rewrite (bind_returned _ _ _ _ Ho). cbn [outcome world events].
      specialize (IH (<[Flow.id flow := stateEntry flow]> acc.1,
                      acc.2 ++ [changedFile instance flow])
                     (world (writeFlow REPO_PATH reformat instance lastState acc flow w))).
      cbv zeta in IH. cbn [fst snd] in IH.
      destruct IH as (Hf & IHx & IHwarn & _ & Hpar & Hret).
      rewrite writes_app, execs_app, warnings_app, Hwr, Hx, Hwarn, IHx, IHwarn.
      split_and!; try done.
      * rewrite Hf, Hw. done.
      * rewrite <- Hpar. split; [tauto|]. intros ?. split; [|done].
        intros d [= <-] _. by rewrite Hfmt.
      * intros cs ch Hout. destruct (Hret cs ch Hout) as (-> & -> & Hpaths).
        split_and!.
        -- unfold recordAll. cbn [foldl]. by rewrite decide_True.
        -- by rewrite fmap_cons, <- app_assoc.
        -- rewrite fmap_app, Hpaths. done.
    + destruct (writeFlow_throw acc flow flowData w Hp Hch Hfmt)
        as (Ho & Hw & Hwr & Hx & Hwarn).
      rewrite (bind_thrown _ _ _ _ Ho). cbn [outcome world events].
      rewrite Hw, Hx, Hwarn. split_and!; try done.
      split.
      * intros [Hhd _]. destruct (Hhd flowData eq_refl eq_refl) as [? ?].
        congruence.
      * intros [? ?]. done.
Qed.

End Writing.

(** ** The recorded state *)

Lemma recordAll_cons flow flows st :
  recordAll (flow :: flows) st
  = recordAll flows (if decide (hasPayload flow)
                     then <[Flow.id flow := stateEntry flow]> st else st).
Proof. reflexivity. Qed.

Lemma recordAll_lookup_out flows st i :
  (∀ flow, flow ∈ flows → hasPayload flow → Flow.id flow ≠ i) →
  recordAll flows st !! i = st !! i.
Proof.
  revert st. induction flows as [|flow flows IH]; intros st Hout; [done|].
  rewrite recordAll_cons, IH.
  - case_decide; [|done]. apply lookup_insert_ne, Hout; [left|done].
  - intros f Hin. apply Hout. by right.
Qed.



Lemma currentFlowIds_spec flows i :
  i ∈ currentFlowIds flows ↔ i ∈ Flow.id <$> flows.
Proof. unfold currentFlowIds. apply elem_of_list_to_set. Qed.

Lemma gone_ids_spec flows (lastState : gmap string FlowState.t) i :
  i ∈ (filter (gone flows) (map_to_list lastState)).*1
  ↔ is_Some (lastState !! i) ∧ i ∉ Flow.id <$> flows.
Proof.
  rewrite list_elem_of_fmap. split.
  - intros ([k v] & -> & [Hg Hin]%list_elem_of_filter).
    apply elem_of_map_to_list in Hin. unfold gone in Hg.
    rewrite currentFlowIds_spec in Hg. split; [by eexists|done].
  - intros [[v Hv] Hout]. exists (i, v). split; [done|].
    apply list_elem_of_filter. split.
    + unfold gone. by rewrite currentFlowIds_spec.
    + by apply elem_of_map_to_list.
Qed.


(** ** Reconciliation (lines 125-178) *)

Section Reconciliation.

Variable REPO_PATH : string.
Variable reformat : string → option string.
Variable instance : Instance.t.

Lemma reconcile_spec flows lastState w :
  let r := reconcile REPO_PATH reformat instance flows lastState w in
  let wanted := filter (toWrite lastState) flows in
  let lost := filter (gone flows) (map_to_list lastState) in
  failing (world r) = failing w ∧
  (parseable reformat lastState flows ↔ ∃ result, outcome r = Returned result) ∧
  (∀ currentState changedFiles movedFiles,
     outcome r = Returned (currentState, changedFiles, movedFiles) →
     changedFiles = changedFile instance <$> wanted ∧
     (writes (events r)).*1 = filePath REPO_PATH instance <$> wanted ∧
     execs (events r)
     = (commandLine ∘ moveCommand REPO_PATH instance) <$> lost ∧
     (∀ id, currentState !! id
            = if decide (id ∈ lost.*1) then None
              else recordAll flows lastState !! id) ∧
     movedFiles `sublist_of`
       ((λ entry, destinationPath REPO_PATH instance entry.1 entry.2) <$> lost) ∧
     length movedFiles + length (warnings (events r)) = length lost ∧
     (∀ content,
        holds (world (forEach (writeFlow REPO_PATH reformat instance lastState)
                              flows (lastState, []) w)) content →
        holds (world r) content) ∧
     (changedFiles = [] → movedFiles = [] → world r = w)).
Proof.
  cbv zeta. unfold reconcile.
  pose proof (writeLoop_spec REPO_PATH reformat instance lastState flows
                (lastState, []) w) as Hw.
  cbv zeta in Hw. cbn [fst snd app] in Hw.
  destruct Hw as (Hf & Hx & Hwarn & Hquiet & Hpar & Hret).
  set (loop1 := forEach (writeFlow REPO_PATH reformat instance lastState)
                        flows (lastState, [])) in *.
  destruct (outcome (loop1 w)) as [[cs1 ch1]|e] eqn:Ho1.
  2:{ rewrite (bind_thrown _ _ _ _ Ho1). cbn [outcome world events].
      split_and!; [done| |done].
      rewrite Hpar. split; intros [? ?]; done. }
  destruct (Hret cs1 ch1 eq_refl) as (-> & -> & Hpaths).
  rewrite (bind_returned _ _ _ _ Ho1). cbn [outcome world events].
  pose proof (archiveLoop_spec REPO_PATH instance flows (map_to_list lastState)
                (recordAll flows lastState, []) (world (loop1 w))) as Ha.
  cbv zeta in Ha. cbn [fst snd app] in Ha.
  destruct Ha as (Haf & Haw & Hax & Hah & cs2 & mv & Hao & Hal & Has & Han & Haq).
  set (loop2 := forEach (archiveFlow REPO_PATH instance flows)
                        (map_to_list lastState) (recordAll flows lastState, [])) in *.
  rewrite (bind_returned _ _ _ _ Hao). cbn [outcome world events].
  unfold mret, M_ret. cbn [outcome world events].
  rewrite !app_nil_r.
  split_and!.
  - congruence.
  - rewrite Hpar. split; [by eexists|by eexists].
  - intros cs ch mv' [= <- <- <-].
    rewrite writes_app, execs_app, warnings_app, Haw, Hx, Hwarn, app_nil_r.
    split_and!; try done.
    intros Hch Hmv. rewrite (Haq Hmv).
    apply Hquiet. by apply fmap_nil_inv in Hch.
Qed.


End Reconciliation.

(** ** The cycle of one instance (lines 124-192) *)

Section Cycle.

Variable REPO_PATH : string.
Variable reformat : string → option string.
Variable instance : Instance.t.

Lemma getLastKnownState_spec w :
  ∃ lastState,
    getLastKnownState REPO_PATH (Instance.name instance) w
    = MkRun (Returned lastState) w [] ∧
    match files w !! stateFilePath REPO_PATH (Instance.name instance) with
    | Some (StateDoc st) => lastState = st
    | _ => lastState = ∅
    end.
Proof.
  unfold getLastKnownState.
  destruct (files w !! _) as [[?|st]|]; eauto.
Qed.

Lemma finish_quiet currentState w :
  ∃ message,
    finish REPO_PATH instance (currentState, [], []) w
    = MkRun (Returned (resultOf instance [] [])) w [Log message].
Proof. eexists. reflexivity. Qed.

Lemma finish_save currentState changedFiles movedFiles w :
  changedFiles ≠ [] ∨ movedFiles ≠ [] →
  ∃ message,
    finish REPO_PATH instance (currentState, changedFiles, movedFiles) w
    = MkRun (Returned (resultOf instance changedFiles movedFiles))
            (MkWorld (<[stateFilePath REPO_PATH (Instance.name instance)
                        := StateDoc currentState]> (files w)) (failing w))
            [WriteFile (stateFilePath REPO_PATH (Instance.name instance))
                       (StateDoc currentState);
             Log message].
Proof.
  intros Hne. eexists. unfold finish.
  assert (bool_decide (0 < length changedFiles)
          || bool_decide (0 < length movedFiles) = true) as ->.
  { destruct Hne as [H|H]; [destruct changedFiles|destruct movedFiles];
      try done; cbn; rewrite ?orb_true_r; done. }
  reflexivity.
Qed.

Lemma syncFetchedFlows_thrown flows w lastState e :
  getLastKnownState REPO_PATH (Instance.name instance) w
  = MkRun (Returned lastState) w [] →
  outcome (reconcile REPO_PATH reformat instance flows lastState w) = Thrown e →
  outcome (syncFetchedFlows REPO_PATH reformat instance flows w) = Thrown e.
Proof.
  intros Hl Hr. unfold syncFetchedFlows.
  rewrite (bind_quiet _ _ _ _ _ Hl), (bind_thrown _ _ _ _ Hr). done.
Qed.

Lemma syncFetchedFlows_returned flows w lastState cs ch mv :
  getLastKnownState REPO_PATH (Instance.name instance) w
  = MkRun (Returned lastState) w [] →
  let rec := reconcile REPO_PATH reformat instance flows lastState w in
  let r := syncFetchedFlows REPO_PATH reformat instance flows w in
  outcome rec = Returned (cs, ch, mv) →
  outcome r = Returned (resultOf instance ch mv) ∧
  execs (events r) = execs (events rec) ∧
  warnings (events r) = warnings (events rec) ∧
  ((ch = [] ∧ mv = [] ∧ world r = world rec ∧
    writes (events r) = writes (events rec))
   ∨ ((ch ≠ [] ∨ mv ≠ []) ∧
      world r = MkWorld (<[stateFilePath REPO_PATH (Instance.name instance)
                           := StateDoc cs]> (files (world rec)))
                        (failing (world rec)) ∧
      writes (events r)
      = writes (events rec)
        ++ [(stateFilePath REPO_PATH (Instance.name instance), StateDoc cs)])).
Proof.
  intros Hl rec r Hr. subst rec r. unfold syncFetchedFlows.
  rewrite (bind_quiet _ _ _ _ _ Hl), (bind_returned _ _ _ _ Hr).
  destruct (decide (ch = [] ∧ mv = [])) as [[-> ->]|Hne].
  - destruct (finish_quiet cs
      (world (reconcile REPO_PATH reformat instance flows lastState w)))
      as [msg ->].
    cbn [outcome world events].
    rewrite execs_app, warnings_app, writes_app. cbn. rewrite !app_nil_r.
    split_and!; try done. by left.
  - assert (ch ≠ [] ∨ mv ≠ []) as Hsave.
    { destruct ch; [|by left]. destruct mv; [|by right]. by destruct Hne. }
    destruct (finish_save cs ch mv
      (world (reconcile REPO_PATH reformat instance flows lastState w)) Hsave)
      as [msg ->].
    cbn [outcome world events].
    rewrite execs_app, warnings_app, writes_app. cbn. rewrite !app_nil_r.
    split_and!; try done. by right.
Qed.

Lemma syncInstanceFlows_json status rawBody flows w :
  let r := syncInstanceFlows REPO_PATH reformat instance
             (Response true status rawBody (Json flows)) w in
  let r' := syncFetchedFlows REPO_PATH reformat instance flows w in
  outcome r = outcome r' ∧ world r = world r' ∧
  writes (events r) = writes (events r') ∧
  execs (events r) = execs (events r') ∧
  warnings (events r) = warnings (events r').
Proof.
  cbv zeta. unfold syncInstanceFlows.
  rewrite (bind_run _ _ w () w [Log _] eq_refl).
  cbn [outcome world events]. done.
Qed.

End Cycle.

Lemma bind_ext {A B} (m : M A) (k k' : A → M B) (w : World) :
  (∀ a w', k a w' = k' a w') → (m ≫= k) w = (m ≫= k') w.
Proof.
  intros H. unfold mbind, M_bind.
  destruct (m w) as [[a|e] w1 evs1]; by rewrite ?H.
Qed.

Lemma NoDup_fmap_eq {A B} (f : A → B) (l : list A) x y :
  NoDup (f <$> l) → x ∈ l → y ∈ l → f x = f y → x = y.
Proof.
  induction l as [|z l IH]; intros Hnd Hx Hy Heq; [by apply elem_of_nil in Hx|].
  rewrite fmap_cons in Hnd. apply NoDup_cons in Hnd as [Hfresh Hnd].
  apply elem_of_cons in Hx as [->|Hx]; apply elem_of_cons in Hy as [->|Hy];
    try done.
  - exfalso. apply Hfresh. rewrite Heq. by apply list_elem_of_fmap_2.
  - exfalso. apply Hfresh. rewrite <- Heq. by apply list_elem_of_fmap_2.
  - by apply IH.
Qed.

(** ** Strings and paths *)







Lemma lowerChar_caseVariant a b :
  caseVariant a b → JS.lowerChar a = JS.lowerChar b.
Proof.
  assert (∀ u l, JS.isUpper u = true → JS.code l = JS.code u + 32 →
                 JS.lowerChar u = JS.lowerChar l) as Hpair.
  { intros u l Hu Hl. unfold JS.lowerChar. rewrite Hu, <- Hl.
    unfold JS.code at 1. rewrite ascii_nat_embedding.
    assert (JS.isUpper l = false) as ->; [|done].
    unfold JS.isUpper in *. cbv zeta in *. rewrite Hl.
    generalize dependent (JS.code u). intros n Hu _.
    repeat match goal with
           | H : context [?a <=? ?b] |- _ => destruct (Nat.leb_spec a b)
           | H : context [?a =? ?b] |- _ => destruct (Nat.eqb_spec a b)
           | |- context [?a <=? ?b] => destruct (Nat.leb_spec a b)
           | |- context [?a =? ?b] => destruct (Nat.eqb_spec a b)
           end; cbn in *; try done; lia. }
  intros [->|[[Hu Hl]|[Hu Hl]]]; [done|by apply Hpair|symmetry; by apply Hpair].
Qed.

Lemma toLowerCase_sameUpToCase s t :
  sameUpToCase s t → JS.toLowerCase s = JS.toLowerCase t.
Proof.
  induction 1 as [|a b s t Hab _ IH]; [done|].
  unfold JS.toLowerCase in *. cbn. by rewrite IH, (lowerChar_caseVariant a b).
Qed.


(** ** The commands a sweep runs *)

Section Tame.

Variable P : string → Prop.

Lemma tame_ret {A} (a : A) : tame P (mret a).
Proof. intros w. split; [done|constructor]. Qed.

Lemma tame_throw {A} e : tame P (throw (A := A) e).
Proof. intros w. split; [done|constructor]. Qed.

Lemma tame_emit e : (∀ c, e ≠ Exec c) → tame P (emit e).
Proof.
  intros He w. split; [done|]. unfold emit. cbn [events].
  destruct e as [| | | | |c]; cbn; [constructor..|by destruct (He c)].
Qed.

Lemma tame_writeFile path content : tame P (writeFile path content).
Proof. intros w. split; [done|constructor]. Qed.

Lemma tame_bind {A B} (m : M A) (k : A → M B) :
  tame P m → (∀ a, tame P (k a)) → tame P (m ≫= k).
Proof.
  intros Hm Hk w. destruct (Hm w) as [Hf Hx].
  destruct (outcome (m w)) as [a|e] eqn:Ho.
  - rewrite (bind_returned _ _ _ _ Ho). cbn [outcome world events].
    destruct (Hk a (world (m w))) as [Hf' Hx']. split; [congruence|].
    rewrite execs_app. by apply Forall_app.
  - by rewrite (bind_thrown _ _ _ _ Ho).
Qed.

Lemma tame_tryCatch {A} (body : M A) (handler : string → M A) :
  tame P body → (∀ e, tame P (handler e)) → tame P (tryCatch body handler).
Proof.
  intros Hm Hk w. destruct (Hm w) as [Hf Hx].
  destruct (outcome (body w)) as [a|e] eqn:Ho.
  - by rewrite (tryCatch_returned _ _ _ _ Ho).
  - rewrite (tryCatch_thrown _ _ _ _ Ho). cbn [outcome world events].
    destruct (Hk e (world (body w))) as [Hf' Hx']. split; [congruence|].
    rewrite execs_app. by apply Forall_app.
Qed.

Lemma tame_forEach {A B} (body : B → A → M B) xs acc :
  (∀ acc x, tame P (body acc x)) → tame P (forEach body xs acc).
Proof.
  intros Hbody. revert acc. induction xs as [|x xs IH]; intros acc.
  - apply tame_ret.
  - cbn [forEach]. apply tame_bind; [apply Hbody|apply IH].
Qed.

Lemma tame_runCommand c suppressErrors :
  P (commandLine c) → tame P (runCommand c suppressErrors).
Proof.
  intros Hc w. unfold runCommand.
  destruct (shell c w) as [stderr|w'] eqn:Hsh; cbn [outcome world events].
  - split; [done|]. destruct suppressErrors; cbn; by repeat constructor.
  - split; [by eapply shell_failing|]. cbn. by repeat constructor.
Qed.

End Tame.

Ltac tame_step :=
  lazymatch goal with
  | |- tame _ (_ ≫= _) => apply tame_bind; [|intros ?]
  | |- tame _ (tryCatch _ _) => apply tame_tryCatch; [|intros ?]
  | |- tame _ (mret _) => apply tame_ret
  | |- tame _ (throw _) => apply tame_throw
  | |- tame _ (consoleLog _) => apply tame_emit; done
  | |- tame _ (consoleWarn _) => apply tame_emit; done
  | |- tame _ (consoleError _) => apply tame_emit; done
  | |- tame _ (mkdir _) => apply tame_emit; done
  | |- tame _ (writeFile _ _) => apply tame_writeFile
  | |- tame _ (saveState _ _ _) => apply tame_writeFile
  | |- tame _ (forEach _ _ _) => apply tame_forEach; intros ? ?
  | |- tame _ (runCommand _ _) => apply tame_runCommand
  | |- tame _ (if ?b then _ else _) => destruct b
  | |- tame _ (match ?x with _ => _ end) => destruct x
  end.

Section Sweep.

Variable REPO_PATH : string.
Variable reformat : string → option string.
Variable P : string → Prop.
Hypothesis moves : ∀ source destination, P (commandLine (GitMv source destination)).

Lemma tame_getLastKnownState name :
  tame P (getLastKnownState REPO_PATH name).
Proof.
  intros w. unfold getLastKnownState.
  destruct (files w !! _) as [[?|?]|]; split; done || constructor.
Qed.

Lemma tame_syncInstanceFlows instance fetched :
  tame P (syncInstanceFlows REPO_PATH reformat instance fetched).
Proof.
  unfold syncInstanceFlows, syncFetchedFlows, finish, reconcile.
  repeat (tame_step || apply tame_getLastKnownState).
  - unfold writeFlow. repeat tame_step.
  - unfold archiveFlow. repeat tame_step. apply moves.
Qed.

Lemma tame_syncAll jobs : tame P (syncAll REPO_PATH reformat jobs).
Proof.
  unfold syncAll. tame_step. unfold syncOne.
  repeat (tame_step || apply tame_syncInstanceFlows).
Qed.


End Sweep.

(** ** Properties of the specification *)

Section Claims.

Variable REPO_PATH : string.
Variable reformat : string → option string.






(** C4. Change detection: a flow whose id is in the last state with the
    same [updatedDate] is not written. Its turn in the loop leaves the
    working tree and the list of written files as they are and writes no
    file; and in a reconciliation that returns, the written files and the
    list of written files are those of the flows to write, of which that
    flow is none, however often it occurs among the flows. *)
Theorem C4_unchanged_entity_not_written instance lastState recorded flow :
  lastState !! Flow.id flow = Some recorded →
  FlowState.updatedDate recorded = Flow.updatedDate flow →
  (∀ acc w,
     let r := writeFlow REPO_PATH reformat instance lastState acc flow w in
     world r = w ∧ writes (events r) = [] ∧
     ∃ currentState, outcome r = Returned (currentState, acc.2)) ∧
  (∀ flows w currentState changedFiles movedFiles,
     let r := reconcile REPO_PATH reformat instance flows lastState w in
     outcome r = Returned (currentState, changedFiles, movedFiles) →
     ∃ written,
       changedFiles = changedFile instance <$> written ∧
       (writes (events r)).*1 = filePath REPO_PATH instance <$> written ∧
       written `sublist_of` flows ∧
       flow ∉ written).
Proof.
  intros Hrec Hsame.
  assert (changed lastState flow = false) as Hch.
  { unfold changed. rewrite Hrec, Hsame. cbn. by rewrite bool_decide_eq_true_2. }
  split.
  - intros acc w. cbv zeta.
    destruct (Flow.payload flow) as [d|] eqn:Hp.
    + rewrite writeFlow_unchanged by (done || by eexists).
      cbn. split_and!; try done. by eexists.
    + rewrite writeFlow_skip by done. cbn. split_and!; try done.
      exists acc.1. by destruct acc.
  - intros flows w cs ch mv r Hout. subst r.
    destruct (reconcile_spec REPO_PATH reformat instance flows lastState w)
      as (_ & _ & Hspec).
    destruct (Hspec _ _ _ Hout) as (-> & Hwr & _).
    exists (filter (toWrite lastState) flows). split_and!; try done.
    + apply sublist_filter.
    + intros [[_ Hyes] _]%list_elem_of_filter. congruence.
Qed.

(** C8. A flow without payload is skipped: its turn in the writing loop
    does nothing at all, so that the loop runs as if the flow were not
    there; its id is among the current ids, so that the archival loop
    passes an entry of that id without doing anything; and when the ids of
    the flows are distinct, the new state has at that id what the last
    state had. *)
Theorem C8_payloadless_entity_skipped instance lastState flow :
  Flow.payload flow = None →
  (∀ acc w,
     writeFlow REPO_PATH reformat instance lastState acc flow w
     = MkRun (Returned acc) w []) ∧
  (∀ before after acc w,
     forEach (writeFlow REPO_PATH reformat instance lastState)
             (before ++ flow :: after) acc w
     = forEach (writeFlow REPO_PATH reformat instance lastState)
               (before ++ after) acc w) ∧
  (∀ flows, flow ∈ flows →
     (∀ acc flowState w,
        archiveFlow REPO_PATH instance flows acc (Flow.id flow, flowState) w
        = MkRun (Returned acc) w []) ∧
     (NoDup (Flow.id <$> flows) →
      ∀ w currentState changedFiles movedFiles,
        outcome (reconcile REPO_PATH reformat instance flows lastState w)
        = Returned (currentState, changedFiles, movedFiles) →
        currentState !! Flow.id flow = lastState !! Flow.id flow)).
Proof.
  intros Hp. split_and!.
  - intros acc w. by apply writeFlow_skip.
  - intros before after acc w. rewrite !forEach_app.
    apply bind_ext. intros acc' w'. rewrite forEach_cons.
    apply bind_quiet. by apply writeFlow_skip.
  - intros flows Hin. split.
    + intros acc flowState w. apply archiveFlow_present.
      apply currentFlowIds_spec. by apply list_elem_of_fmap_2.
    + intros Hnd w cs ch mv Hout.
      destruct (reconcile_spec REPO_PATH reformat instance flows lastState w)
        as (_ & _ & Hspec).
      destruct (Hspec _ _ _ Hout) as (_ & _ & _ & -> & _).
      rewrite decide_False.
      * apply recordAll_lookup_out. intros other Hother [d Hd] Heq.
        assert (other = flow) as -> by (by eapply NoDup_fmap_eq).
        congruence.
      * rewrite gone_ids_spec. intros [_ Hout']. apply Hout'.
        by apply list_elem_of_fmap_2.
Qed.


(** C5, amended. The scenario of one new flow: with no state file and the
    remote collection of the single flow abc123 named Test Flow, of type
    chatflow and updated at T1, the cycle writes the reformatted payload to
    [flows/inst/chatflow/Test_Flow_id_c123.json] under the repository, the
    file name ending in the last four characters of the id, returns that
    relative path as the only changed file, and saves the state that maps
    abc123 to the entry updated at T1. *)
Theorem C5_new_entity_scenario status rawBody formatted w :
  files w !! stateFilePath REPO_PATH "inst" = None →
  reformat examplePayload = Some formatted →
  let r := syncInstanceFlows REPO_PATH reformat exampleInstance
             (Response true status rawBody (Json [exampleFlow])) w in
  let flowFile :=
    Path.join [Path.join [Path.join [REPO_PATH; "flows"; "inst"]; "chatflow"];
               "Test_Flow_id_c123.json"] in
  outcome r
  = Returned (SyncResult.Build "inst"
                ["flows/inst/chatflow/Test_Flow_id_c123.json"] []
                ".flow_state_inst.json") ∧
  writes (events r)
  = [(flowFile, Text formatted);
     (stateFilePath REPO_PATH "inst",
      StateDoc {[ "abc123" := FlowState.Build (Some "T1") (Some "Test_Flow")
                                (Some "Test_Flow_id_c123.json")
                                (Some "chatflow") ]})] ∧
  files (world r) !! stateFilePath REPO_PATH "inst"
  = Some (StateDoc {[ "abc123" := exampleEntry ]}).
Proof.
  intros Hnone Hfmt. cbv zeta.
  destruct (syncInstanceFlows_json REPO_PATH reformat exampleInstance status
              rawBody [exampleFlow] w) as (-> & -> & -> & _).
  assert (getLastKnownState REPO_PATH (Instance.name exampleInstance) w
          = MkRun (Returned ∅) w []) as Hl.
  { unfold getLastKnownState.
    change (Instance.name exampleInstance) with "inst". by rewrite Hnone. }
  assert (Flow.payload exampleFlow = Some examplePayload) as Hp by reflexivity.
  assert (changed ∅ exampleFlow = true) as Hch by reflexivity.
  destruct (writeFlow_write REPO_PATH reformat exampleInstance ∅ (∅, [])
              exampleFlow examplePayload formatted w Hp Hch Hfmt)
    as (Hout & Hworld & Hwrites & Hexecs & _).
  assert (let rec := reconcile REPO_PATH reformat exampleInstance [exampleFlow] ∅ w in
          outcome rec = Returned ({[ "abc123" := exampleEntry ]},
                                  ["flows/inst/chatflow/Test_Flow_id_c123.json"], []) ∧
          writes (events rec)
          = [(filePath REPO_PATH exampleInstance exampleFlow, Text formatted)])
    as [Hrec Hrecw].
  { cbv zeta. unfold reconcile. rewrite map_to_list_empty.
    rewrite <- (forEach_singleton (writeFlow REPO_PATH reformat exampleInstance ∅)
                  exampleFlow (∅, []) w) in Hout, Hwrites.
    rewrite (bind_returned _ _ _ _ Hout).
    set (loop := forEach (writeFlow REPO_PATH reformat exampleInstance ∅)
                         [exampleFlow] (∅, []) w) in *.
    clearbody loop.
    cbn [forEach fst snd]. unfold mbind, M_bind, mret, M_ret.
    cbn [outcome world events fst snd].
    rewrite !app_nil_r, Hwrites. done. }
  cbv zeta in Hrec, Hrecw.
  destruct (syncFetchedFlows_returned REPO_PATH reformat exampleInstance
              [exampleFlow] w ∅ _ _ _ Hl Hrec) as (-> & _ & _ & Hcase).
  destruct Hcase as [([=] & _)|(_ & -> & ->)].
  split_and!.
  - reflexivity.
  - rewrite Hrecw. reflexivity.
  - cbn. apply lookup_insert_eq.
Qed.












End Claims.

(** ** The properties on the scenario of the specification *)

Lemma exampleFlow_parseable lastState :
  parseable exampleReformat lastState [exampleFlow].
Proof.
  intros flow flowData ->%list_elem_of_singleton [= <-] _. by eexists.
Qed.



Lemma C4_unchanged_entity_not_written_witness :
  ({[ "abc123" := exampleEntry ]} : gmap string FlowState.t) !! Flow.id exampleFlow
  = Some exampleEntry ∧
  FlowState.updatedDate exampleEntry = Flow.updatedDate exampleFlow ∧
  ∀ acc w,
    world (writeFlow "/app" exampleReformat exampleInstance
             {[ "abc123" := exampleEntry ]} acc exampleFlow w) = w.
Proof.
  assert (({[ "abc123" := exampleEntry ]} : gmap string FlowState.t)
            !! Flow.id exampleFlow = Some exampleEntry) as Hrec
    by (vm_compute; reflexivity).
  split; [exact Hrec|]. split; [reflexivity|].
  intros acc w.
  destruct (C4_unchanged_entity_not_written "/app" exampleReformat exampleInstance
              {[ "abc123" := exampleEntry ]} exampleEntry exampleFlow Hrec eq_refl)
    as [Hstep _].
  destruct (Hstep acc w) as [Hworld _]. exact Hworld.
Defined.

Lemma C8_payloadless_entity_skipped_witness :
  Flow.payload emptyFlow = None ∧
  ∀ acc w,
    writeFlow "/app" exampleReformat exampleInstance
      {[ "abc123" := exampleEntry ]} acc emptyFlow w
    = MkRun (Returned acc) w [].
Proof.
  split; [reflexivity|].
  destruct (C8_payloadless_entity_skipped "/app" exampleReformat exampleInstance
              {[ "abc123" := exampleEntry ]} emptyFlow eq_refl) as [Hstep _].
  exact Hstep.
Defined.


(** C5, as stated: on the scenario, the cycle neither returns
    [flows/inst/chatflow/Test_Flow_id_3123.json] nor writes a file of that
    name; the last four characters of abc123 are c123. *)
Lemma C5_counterexample :
  let r := syncInstanceFlows "/app" exampleReformat exampleInstance
             exampleFetched emptyWorld in
  ¬ ∃ result,
      outcome r = Returned result ∧
      "flows/inst/chatflow/Test_Flow_id_3123.json"
      ∈ SyncResult.changedFiles result ∧
      is_Some (files (world r) !! "/app/flows/inst/chatflow/Test_Flow_id_3123.json").
Proof.
  intros r (result & _ & _ & [content Hfile]).
  vm_compute in Hfile. discriminate Hfile.
Qed.

Lemma C5_new_entity_scenario_witness :
  files emptyWorld !! stateFilePath "/app" "inst" = None ∧
  exampleReformat examplePayload = Some exampleFormatted ∧
  outcome (syncInstanceFlows "/app" exampleReformat exampleInstance
             exampleFetched emptyWorld)
  = Returned (SyncResult.Build "inst"
                ["flows/inst/chatflow/Test_Flow_id_c123.json"] []
                ".flow_state_inst.json").
Proof.
  assert (files emptyWorld !! stateFilePath "/app" "inst" = None) as Hnone
    by (vm_compute; reflexivity).
  split; [exact Hnone|]. split; [reflexivity|].
  destruct (C5_new_entity_scenario "/app" exampleReformat 200 "(body)"
              exampleFormatted emptyWorld Hnone eq_refl) as [Hout _].
  exact Hout.
Defined.






(** C3: when the state file records a flow that the remote instance no
    longer has and the file of that flow is gone, the move fails, a warning
    is printed and the cycle returns; but nothing has been written or moved,
    so the state is not saved, and the state file still records the flow. *)
Theorem C3_failed_archival_state_not_saved :
  let r := syncInstanceFlows "/app" exampleReformat exampleInstance
             emptyFetched staleWorld in
  outcome r = Returned (resultOf exampleInstance [] []) ∧
  warnings (events r)
  = ["    -> Could not archive Test_Flow_id_c123.json, it may have been manually removed."] ∧
  writes (events r) = [] ∧
  files (world r) !! stateFilePath "/app" "inst"
  = Some (StateDoc {[ "abc123" := exampleEntry ]}).
Proof. vm_compute. repeat split; reflexivity. Qed.

(** * Further properties of the code *)

Section Failures.

Variable REPO_PATH : string.
Variable reformat : string → option string.

Lemma syncInstanceFlows_failed_run instance fetched w :
  fetchFailed fetched →
  outcome (syncInstanceFlows REPO_PATH reformat instance fetched w)
  = Thrown (fetchError instance fetched) ∧
  world (syncInstanceFlows REPO_PATH reformat instance fetched w) = w.
Proof.
  intros Hfailed. unfold syncInstanceFlows.
  rewrite (bind_run _ _ w () w [Log _] eq_refl).
  destruct fetched as [message|[|] status rawBody [syntaxError|flows]];
    try done; cbn [outcome world events fetchError];
    rewrite (bind_run _ _ w () w [Error _] eq_refl); done.
Qed.

(** X1. A request that fails (lines 107-122): when the request is rejected,
    the status is not a success or the body is not JSON, [syncInstanceFlows]
    throws the error of that case, after the response has been printed on
    the error console in the last two cases; the working tree is left as it
    is, nothing is written and no command is run. *)
Theorem syncInstanceFlows_fetch_failed instance fetched w :
  fetchFailed fetched →
  let r := syncInstanceFlows REPO_PATH reformat instance fetched w in
  outcome r = Thrown (fetchError instance fetched) ∧
  world r = w ∧
  writes (events r) = [] ∧
  execs (events r) = [] ∧
  ((∀ message, fetched ≠ FetchRejected message) →
   ∃ printed, events r
     = [Log ("  -> Syncing flows from instance: " +:+ Instance.name instance
             +:+ " (" +:+ Instance.url instance +:+ ")");
        Error printed]).
Proof.
  intros Hfailed. cbv zeta. unfold syncInstanceFlows.
  rewrite (bind_run _ _ w () w [Log _] eq_refl).
  destruct fetched as [message|[|] status rawBody [syntaxError|flows]];
    try done; cbn [outcome world events fetchError].
  - split_and!; try done. intros Hother. by destruct (Hother message).
  - rewrite (bind_run _ _ w () w [Error _] eq_refl).
    cbn [outcome world events throw]. split_and!; try done. by eexists.
  - rewrite (bind_run _ _ w () w [Error _] eq_refl).
    cbn [outcome world events throw]. split_and!; try done. by eexists.
  - rewrite (bind_run _ _ w () w [Error _] eq_refl).
    cbn [outcome world events throw]. split_and!; try done. by eexists.
Qed.

Lemma syncOne_throwing acc job w message :
  outcome (syncInstanceFlows REPO_PATH reformat job.1 job.2 w) = Thrown message →
  let r := syncOne REPO_PATH reformat acc job w in
  outcome r = Returned acc ∧
  world r = world (syncInstanceFlows REPO_PATH reformat job.1 job.2 w) ∧
  events r
  = events (syncInstanceFlows REPO_PATH reformat job.1 job.2 w)
    ++ [Error ("  -> Failed to sync instance " +:+ Instance.name job.1
               +:+ ": " +:+ message)].
Proof.
  intros Hthrown. cbv zeta. unfold syncOne.
  match goal with
  | |- context [tryCatch ?body ?handler w] =>
      rewrite (tryCatch_thrown body handler w message
                 (eq_trans (f_equal outcome (bind_thrown _ _ _ _ Hthrown)) eq_refl)),
              (bind_thrown _ _ _ _ Hthrown)
  end.
  cbn [outcome world events].
  rewrite (bind_run _ _ _ () _ [Error _] eq_refl). done.
Qed.

Lemma forEach_skip {A B} (body : B → A → M B) x before after acc w :
  (∀ acc' w', outcome (body acc' x w') = Returned acc' ∧ world (body acc' x w') = w') →
  outcome (forEach body (before ++ x :: after) acc w)
  = outcome (forEach body (before ++ after) acc w) ∧
  world (forEach body (before ++ x :: after) acc w)
  = world (forEach body (before ++ after) acc w).
Proof.
  intros Hskip. rewrite !forEach_app.
  destruct (outcome (forEach body before acc w)) as [acc'|e] eqn:Hbefore.
  - rewrite !(bind_returned _ _ _ _ Hbefore). cbn [outcome world].
    rewrite forEach_cons.
    destruct (Hskip acc' (world (forEach body before acc w))) as [Hout Hworld].
    rewrite (bind_returned _ _ _ _ Hout). cbn [outcome world].
    by rewrite Hworld.
  - by rewrite !(bind_thrown _ _ _ _ Hbefore).
Qed.

(** X2. One instance that cannot be fetched does not stop the others (lines
    233-245): its error is caught and printed, and the totals of the sweep
    and the working tree are what they are without that instance, wherever
    it stands among the instances. *)
Theorem syncAll_failed_fetch_skipped before instance fetched after w :
  fetchFailed fetched →
  let r := syncAll REPO_PATH reformat (before ++ (instance, fetched) :: after) w in
  let r' := syncAll REPO_PATH reformat (before ++ after) w in
  outcome r = outcome r' ∧ world r = world r' ∧
  ∀ acc w',
    Error ("  -> Failed to sync instance " +:+ Instance.name instance +:+ ": "
           +:+ fetchError instance fetched)
    ∈ events (syncOne REPO_PATH reformat acc (instance, fetched) w').
Proof.
  intros Hfailed. cbv zeta.
  assert (∀ (acc : Totals) w',
            outcome (syncInstanceFlows REPO_PATH reformat instance fetched w')
            = Thrown (fetchError instance fetched) ∧
            world (syncInstanceFlows REPO_PATH reformat instance fetched w') = w')
    as Hthrown.
  { intros _ w'. by apply syncInstanceFlows_failed_run. }
  split_and!.
  - apply forEach_skip. intros acc w'. destruct (Hthrown acc w') as [Ht Hw].
    destruct (syncOne_throwing acc (instance, fetched) w' _ Ht) as (? & ? & _).
    split; [done|]. cbn [fst snd] in *. congruence.
  - apply forEach_skip. intros acc w'. destruct (Hthrown acc w') as [Ht Hw].
    destruct (syncOne_throwing acc (instance, fetched) w' _ Ht) as (? & ? & _).
    split; [done|]. cbn [fst snd] in *. congruence.
  - intros acc w'. destruct (Hthrown acc w') as [Ht _].
    destruct (syncOne_throwing acc (instance, fetched) w' _ Ht) as (_ & _ & ->).
    apply elem_of_app. right. by left.
Qed.



End Failures.

Lemma syncInstanceFlows_fetch_failed_witness :
  fetchFailed (Response false 500 "Internal Server Error" (NotJson "")) ∧
  outcome (syncInstanceFlows "/app" exampleReformat exampleInstance
             (Response false 500 "Internal Server Error" (NotJson ""))
             trackedWorld)
  = Thrown "API request failed for inst with status 500: Internal Server Error".
Proof.
  split; [exact I|].
  destruct (syncInstanceFlows_fetch_failed "/app" exampleReformat exampleInstance
              (Response false 500 "Internal Server Error" (NotJson ""))
              trackedWorld I) as [Hthrown _].
  exact Hthrown.
Defined.

Lemma syncAll_failed_fetch_skipped_witness :
  fetchFailed (FetchRejected "fetch failed") ∧
  outcome (syncAll "/app" exampleReformat
             ([] ++ (exampleInstance, FetchRejected "fetch failed")
                 :: [(exampleInstance, exampleFetched)]) emptyWorld)
  = outcome (syncAll "/app" exampleReformat
               ([] ++ [(exampleInstance, exampleFetched)]) emptyWorld).
Proof.
  split; [exact I|].
  destruct (syncAll_failed_fetch_skipped "/app" exampleReformat [] exampleInstance
              (FetchRejected "fetch failed") [(exampleInstance, exampleFetched)]
              emptyWorld I) as [Hsame _].
  exact Hsame.
Defined.

Section Persistence.

Variable REPO_PATH : string.
Variable reformat : string → option string.
Variable instance : Instance.t.

Lemma writeLoop_text lastState flows acc w :
  Forall isText
    (writes (events (forEach (writeFlow REPO_PATH reformat instance lastState)
                             flows acc w))).
Proof.
  revert acc w. induction flows as [|flow flows IH]; intros acc w; [constructor|].
  rewrite forEach_cons.
  assert (Forall isText
            (writes (events (writeFlow REPO_PATH reformat instance lastState
                               acc flow w)))) as Hstep.
  { destruct (Flow.payload flow) as [flowData|] eqn:Hp.
    2:{ rewrite writeFlow_skip by done. constructor. }
    destruct (changed lastState flow) eqn:Hch.
    2:{ rewrite writeFlow_unchanged by (done || by eexists). constructor. }
    destruct (reformat flowData) as [text|] eqn:Hfmt.
    - destruct (writeFlow_write REPO_PATH reformat instance lastState acc flow
                  flowData text w Hp Hch Hfmt) as (_ & _ & -> & _).
      by repeat constructor.
    - destruct (writeFlow_throw REPO_PATH reformat instance lastState acc flow
                  flowData w Hp Hch Hfmt) as (_ & _ & -> & _).
      constructor. }
  destruct (outcome (writeFlow REPO_PATH reformat instance lastState acc flow w))
    as [acc'|e] eqn:Hout.
  - rewrite (bind_returned _ _ _ _ Hout). cbn [events].
    rewrite writes_app. apply Forall_app. split; [done|apply IH].
  - by rewrite (bind_thrown _ _ _ _ Hout).
Qed.


(** X4. The state file is written exactly when something changed (lines
    180-185). In a cycle that returns with no written and no moved file,
    no file at all is written and the working tree is left as it is.
    Otherwise the flow files are written first, each with text, and the
    last write is the state file of the instance with the new state, which
    [getLastKnownState] then reads back. *)
Theorem state_saved_iff_changed status rawBody flows w result :
  let r := syncInstanceFlows REPO_PATH reformat instance
             (Response true status rawBody (Json flows)) w in
  outcome r = Returned result →
  (SyncResult.changedFiles result = [] ∧ SyncResult.movedFiles result = [] ∧
   writes (events r) = [] ∧ world r = w)
  ∨ ((SyncResult.changedFiles result ≠ [] ∨ SyncResult.movedFiles result ≠ []) ∧
     ∃ flowWrites newState,
       Forall isText flowWrites ∧
       writes (events r)
       = flowWrites ++ [(stateFilePath REPO_PATH (Instance.name instance),
                         StateDoc newState)] ∧
       getLastKnownState REPO_PATH (Instance.name instance) (world r)
       = MkRun (Returned newState) (world r) []).
Proof.
  cbv zeta. intros Hres.
  destruct (syncInstanceFlows_json REPO_PATH reformat instance status rawBody
              flows w) as (Hout & -> & -> & _).
  rewrite Hout in Hres. clear Hout.
  destruct (getLastKnownState_spec REPO_PATH instance w) as (lastState & Hl & _).
  destruct (outcome (reconcile REPO_PATH reformat instance flows lastState w))
    as [[[cs ch] mv]|e] eqn:Hrec.
  2:{ rewrite (syncFetchedFlows_thrown _ _ _ _ _ _ _ Hl Hrec) in Hres. done. }
  destruct (syncFetchedFlows_returned REPO_PATH reformat instance flows w
              lastState cs ch mv Hl Hrec) as (Hout & _ & _ & Hcase).
  rewrite Hout in Hres. injection Hres as <-. cbn [SyncResult.changedFiles
    SyncResult.movedFiles resultOf].
  destruct (reconcile_spec REPO_PATH reformat instance flows lastState w)
    as (_ & _ & Hspec).
  destruct (Hspec _ _ _ Hrec) as (Hch & Hwr & _ & _ & _ & _ & _ & Hsame).
  destruct Hcase as [(-> & -> & -> & ->)|(Hne & -> & ->)].
  - left. split_and!; try done.
    + symmetry in Hch. apply fmap_nil_inv in Hch. rewrite Hch in Hwr.
      by apply fmap_nil_inv in Hwr.
    + by apply Hsame.
  - right. split; [done|].
    exists (writes (events (reconcile REPO_PATH reformat instance flows lastState w))), cs.
    split_and!; try done.
    + unfold reconcile.
      pose proof (writeLoop_text lastState flows (lastState, []) w) as Htext.
      destruct (outcome (forEach (writeFlow REPO_PATH reformat instance lastState)
                                 flows (lastState, []) w))
        as [[cs1 ch1]|e] eqn:Hloop.
      2:{ by rewrite (bind_thrown _ _ _ _ Hloop). }
      rewrite (bind_returned _ _ _ _ Hloop). cbn [events].
      rewrite writes_app. apply Forall_app. split; [done|].
      pose proof (archiveLoop_spec REPO_PATH instance flows (map_to_list lastState)
                    (cs1, []) (world (forEach (writeFlow REPO_PATH reformat instance
                                                 lastState) flows (lastState, []) w)))
        as (_ & Hnone & _ & _ & cs2 & mv2 & Ho2 & _).
      rewrite (bind_returned _ _ _ _ Ho2). cbn [events mret M_ret].
      rewrite writes_app, Hnone. constructor.
    + unfold getLastKnownState. cbn [files]. by rewrite lookup_insert_eq.
Qed.


End Persistence.

(** ** File names *)

Lemma string_length_app (a b : string) :
  String.length (a +:+ b) = String.length a + String.length b.
Proof.
  induction a as [|x a IH]; [done|].
  change (S (String.length (a +:+ b)) = S (String.length a + String.length b)).
  by rewrite IH.
Qed.

Lemma string_app_inj_r (a b c d : string) :
  a +:+ b = c +:+ d → String.length b = String.length d → a = c ∧ b = d.
Proof.
  revert c. induction a as [|x a IH]; intros [|y c] Heq Hlen.
  - done.
  - change (b = String y (c +:+ d)) in Heq. rewrite Heq in Hlen.
    cbn [String.length] in Hlen. rewrite string_length_app in Hlen. lia.
  - change (String x (a +:+ b) = d) in Heq. rewrite <- Heq in Hlen.
    cbn [String.length] in Hlen. rewrite string_length_app in Hlen. lia.
  - change (String x (a +:+ b) = String y (c +:+ d)) in Heq.
    injection Heq as -> Heq. destruct (IH c Heq Hlen) as [-> ->]. done.
Qed.

Lemma mapChars_length f s : String.length (JS.mapChars f s) = String.length s.
Proof. induction s as [|c s IH]; [done|]. cbn. by rewrite IH. Qed.

Lemma mapChars_empty f s : JS.mapChars f s = "" → s = "".
Proof. by destruct s. Qed.

Lemma dropChars_length n s :
  String.length (JS.dropChars n s) = String.length s - n.
Proof.
  revert s. induction n as [|n IH]; intros [|c s]; cbn; try done; lia.
Qed.

Lemma sliceLast4_length s :
  String.length (JS.sliceLast4 s) = String.length s `min` 4.
Proof. unfold JS.sliceLast4. rewrite dropChars_length. lia. Qed.

Lemma uniqueFileName_nonempty flow : uniqueFileName flow ≠ "".
Proof.
  unfold uniqueFileName. intros H. apply (f_equal String.length) in H.
  rewrite !string_length_app in H. cbn in H. lia.
Qed.

Lemma flowType_nonempty flow : flowType flow ≠ "".
Proof.
  unfold flowType. intros H%mapChars_empty. unfold JS.orElse in H.
  destruct (Flow.type flow) as [t|]; [|done].
  by case_bool_decide.
Qed.

Lemma orElse_nonempty s d : s ≠ "" → JS.orElse (Some s) d = s.
Proof. intros H. unfold JS.orElse. by rewrite bool_decide_eq_false_2. Qed.

Lemma recorded_paths REPO_PATH instance flow :
  fileNameToMove (Flow.id flow) (stateEntry flow) = uniqueFileName flow ∧
  sourcePath REPO_PATH instance (Flow.id flow) (stateEntry flow)
  = filePath REPO_PATH instance flow ∧
  destinationPath REPO_PATH instance (Flow.id flow) (stateEntry flow)
  = Path.join [Path.join [Path.join [instanceDir REPO_PATH instance; flowType flow];
                          "deleted"]; uniqueFileName flow].
Proof.
  assert (fileNameToMove (Flow.id flow) (stateEntry flow) = uniqueFileName flow)
    as Hname.
  { unfold fileNameToMove, stateEntry. cbn [FlowState.fileName].
    apply orElse_nonempty, uniqueFileName_nonempty. }
  assert (sourceTypeDir REPO_PATH instance (stateEntry flow)
          = Path.join [instanceDir REPO_PATH instance; flowType flow]) as Hdir.
  { unfold sourceTypeDir, stateEntry. cbn [FlowState.type].
    by rewrite orElse_nonempty by apply flowType_nonempty. }
  split; [done|].
  unfold sourcePath, destinationPath, deletedDir, filePath.
  by rewrite Hname, Hdir.
Qed.

(** X6. The entry recorded for a flow names the file the flow is written to
    (lines 134-149 against lines 158-164): when the flow later disappears
    from the remote instance, the file that the archival moves is exactly
    the file that was written, and it goes to the [deleted] directory of the
    same category directory under the same name. *)
Theorem archival_source_is_written_file REPO_PATH instance flow :
  let recorded := stateEntry flow in
  let typeDir := Path.join [instanceDir REPO_PATH instance; flowType flow] in
  fileNameToMove (Flow.id flow) recorded = uniqueFileName flow ∧
  sourcePath REPO_PATH instance (Flow.id flow) recorded
  = filePath REPO_PATH instance flow ∧
  destinationPath REPO_PATH instance (Flow.id flow) recorded
  = Path.join [Path.join [typeDir; "deleted"]; uniqueFileName flow].
Proof. cbv zeta. apply recorded_paths. Qed.

(** X7. The name part of a file name is safe (line 137): it has as many
    code units as the name of the flow, none of them white space or a
    slash, each one being the code unit of the name at its place or an
    underscore; a name without white space and slashes is kept as it is. *)
Theorem safeName_has_no_separator flow :
  String.length (safeName flow) = String.length (Flow.name flow) ∧
  Forall (λ c, JS.isSpaceOrSlash c = false) (stringChars (safeName flow)) ∧
  Forall2 (λ c c', c' = c ∨ (JS.isSpaceOrSlash c = true ∧ c' = "_"%char))
          (stringChars (Flow.name flow)) (stringChars (safeName flow)) ∧
  (Forall (λ c, JS.isSpaceOrSlash c = false) (stringChars (Flow.name flow)) →
   safeName flow = Flow.name flow).
Proof.
  unfold safeName, JS.replaceSpaceSlash. split_and!.
  - apply mapChars_length.
  - induction (Flow.name flow) as [|c s IH]; [constructor|].
    cbn. constructor; [|done].
    destruct (JS.isSpaceOrSlash c) eqn:Hc; [reflexivity|done].
  - induction (Flow.name flow) as [|c s IH]; [constructor|].
    cbn. constructor; [|done].
    destruct (JS.isSpaceOrSlash c); [by right|by left].
  - induction (Flow.name flow) as [|c s IH]; [done|].
    cbn. intros [Hc Hs]%Forall_cons. by rewrite Hc, IH.
Qed.

(** X8. File names tell flows apart as far as their sanitized names and the
    last four code units of their ids do (line 139): for ids of at least
    four code units, two flows have the same file name only if they have
    the same sanitized name and the same last four code units of the id. *)
Theorem uniqueFileName_injective flow flow' :
  4 ≤ String.length (Flow.id flow) → 4 ≤ String.length (Flow.id flow') →
  uniqueFileName flow = uniqueFileName flow' →
  safeName flow = safeName flow' ∧
  JS.sliceLast4 (Flow.id flow) = JS.sliceLast4 (Flow.id flow').
Proof.
  intros Hid Hid' Heq. unfold uniqueFileName in Heq.
  pose proof (sliceLast4_length (Flow.id flow)) as Hlen.
  pose proof (sliceLast4_length (Flow.id flow')) as Hlen'.
  apply string_app_inj_r in Heq as [Hsafe Hrest].
  2:{ rewrite !string_length_app. lia. }
  split; [done|].
  apply (inj (String.app "_id_")) in Hrest.
  apply string_app_inj_r in Hrest as [Hlast _]; done.
Qed.

Lemma uniqueFileName_injective_witness :
  4 ≤ String.length (Flow.id exampleFlow) ∧
  uniqueFileName exampleFlow = uniqueFileName untypedFlow ∧
  safeName exampleFlow = safeName untypedFlow.
Proof.
  assert (4 ≤ String.length (Flow.id exampleFlow)) as Hid by (cbn; lia).
  split; [exact Hid|]. split; [reflexivity|].
  destruct (uniqueFileName_injective exampleFlow untypedFlow Hid Hid eq_refl)
    as [Hsafe _].
  exact Hsafe.
Defined.

(** With shorter ids the file name does not determine its parts. *)
Example uniqueFileName_short_id_collision :
  let flow := Flow.Build "_id_" "a" None None None in
  let flow' := Flow.Build "" "a_id_" None None None in
  uniqueFileName flow = uniqueFileName flow' ∧ safeName flow ≠ safeName flow'.
Proof. split; [reflexivity|discriminate]. Qed.

(** ** A flow from its first cycle to its archival *)

Section Lifecycle.

Variable REPO_PATH : string.
Variable reformat : string → option string.
Variable instance : Instance.t.




End Lifecycle.

(** ** The configuration *)

Lemma unescapeQuotes_absent s :
  JS.includes s escapedQuote = false → unescapeQuotes s = s.
Proof.
  induction s as [|a rest IH]; [done|]. intros Hnone.
  cbn [JS.includes] in Hnone. apply orb_false_iff in Hnone as [Hhere Hrest].
  destruct rest as [|b r]; [done|].
  cbn [unescapeQuotes]. fold unescapeQuotes.
  destruct (bool_decide (a = backslashChar) && bool_decide (b = quoteChar)) eqn:Hab.
  - apply andb_true_iff in Hab as [->%bool_decide_eq_true ->%bool_decide_eq_true].
    done.
  - f_equal. by apply IH.
Qed.

(** X10. Loading the configuration (lines 67-86) reads and writes nothing.
    It returns the enabled instances of the configuration, in their order
    and at least one, the configuration being the text of the variable with
    every backslash before a double quote dropped; it throws when the
    variable is missing or empty, when that text does not parse, and when
    no instance is enabled, with the message of each case. *)
Theorem loadInstancesConfig_spec parseInstances env w :
  let r := loadInstancesConfig parseInstances env w in
  world r = w ∧ events r = [] ∧
  match outcome r with
  | Returned enabledInstances =>
      enabledInstances ≠ [] ∧
      ∃ text instances,
        env = Some text ∧ text ≠ "" ∧
        parseInstances (unescapeQuotes text) = Some instances ∧
        enabledInstances
        = filter (λ instance, Instance.enabled instance = true) instances
  | Thrown message =>
      (message = "FLOWISE_INSTANCES_JSON env variable is required." ∧
       (env = None ∨ env = Some ""))
      ∨ (message = "FLOWISE_INSTANCES_JSON env is not valid JSON." ∧
         ∃ text, env = Some text ∧ parseInstances (unescapeQuotes text) = None)
      ∨ (message = "No enabled instances found in configuration. Please enable at least one instance." ∧
         ∃ text instances,
           env = Some text ∧
           parseInstances (unescapeQuotes text) = Some instances ∧
           Forall (λ instance, Instance.enabled instance = false) instances)
  end.
Proof.
  cbv zeta. unfold loadInstancesConfig.
  destruct env as [text|]; cbn [JS.truthy negb].
  2:{ split_and!; try done. left. split; [done|by left]. }
  change (default "" (Some text)) with text. cbv zeta.
  rewrite negb_involutive.
  case_bool_decide as Hempty.
  { subst text. split_and!; try done. left. split; [done|by right]. }
  assert ((if JS.includes text escapedQuote then unescapeQuotes text else text)
          = unescapeQuotes text) as ->.
  { destruct (JS.includes text escapedQuote) eqn:Hin; [done|].
    symmetry. by apply unescapeQuotes_absent. }
  destruct (parseInstances (unescapeQuotes text)) as [instances|] eqn:Hparse.
  2:{ split_and!; try done. right. left. split; [done|]. by exists text. }
  case_bool_decide as Hnone.
  - split_and!; try done. right. right. split; [done|].
    exists text, instances. split_and!; try done.
    apply Forall_forall. intros i Hi.
    apply length_zero_iff_nil in Hnone.
    destruct (Instance.enabled i) eqn:Hen; [|done].
    destruct (filter_nil_not_elem_of
                (λ instance, Instance.enabled instance = true)
                instances i Hnone Hen Hi).
  - cbn. split_and!; try done.
    + intros Hnil. by rewrite Hnil in Hnone.
    + by exists text, instances.
Qed.

(** ** Push errors *)

Lemma mapChars_app f a b :
  JS.mapChars f (a +:+ b) = JS.mapChars f a +:+ JS.mapChars f b.
Proof.
  induction a as [|x a IH]; [done|].
  change (String (f x) (JS.mapChars f (a +:+ b))
          = String (f x) (JS.mapChars f a +:+ JS.mapChars f b)).
  by rewrite IH.
Qed.

Lemma startsWith_app m b : JS.startsWith m (m +:+ b) = true.
Proof.
  induction m as [|x m IH]; [done|].
  change (JS.startsWith (String x m) (String x (m +:+ b)) = true).
  cbn. by rewrite bool_decide_eq_true_2, IH.
Qed.

Lemma includes_here m b : JS.includes (m +:+ b) m = true.
Proof.
  destruct (m +:+ b) eqn:E; cbn [JS.includes];
    rewrite <- E, startsWith_app; done.
Qed.

Lemma includes_app_l a b m :
  JS.includes b m = true → JS.includes (a +:+ b) m = true.
Proof.
  intros Hb. induction a as [|x a IH]; [done|].
  change (JS.includes (String x (a +:+ b)) m = true).
  cbn [JS.includes]. rewrite IH. apply orb_true_r.
Qed.

Lemma pushDenied_marker message marker :
  marker ∈ pushDeniedMarkers →
  JS.includes (JS.toLowerCase message) marker = true →
  pushDenied message = true.
Proof.
  intros Hin Hinc. unfold pushDenied, pushDeniedMarkers in *. cbv zeta.
  repeat (apply elem_of_cons in Hin as [->|Hin];
          [rewrite Hinc, ?orb_true_r; reflexivity|]).
  by apply elem_of_nil in Hin.
Qed.

(** X11. A push error is recognised whatever the letter case of its
    message (lines 270-278): when the message of the error contains one of
    the six markers, written in any mix of upper and lower case, the error
    is taken for a missing remote or a missing permission. *)
Theorem pushDenied_any_case marker variant before after :
  marker ∈ pushDeniedMarkers → sameUpToCase variant marker →
  pushDenied (before +:+ variant +:+ after) = true.
Proof.
  intros Hin Hsame. apply (pushDenied_marker _ marker Hin).
  unfold JS.toLowerCase. rewrite !mapChars_app.
  fold (JS.toLowerCase variant).
  rewrite (toLowerCase_sameUpToCase _ _ Hsame).
  assert (JS.toLowerCase marker = marker) as ->.
  { unfold pushDeniedMarkers in Hin.
    repeat (apply elem_of_cons in Hin as [->|Hin]; [reflexivity|]).
    by apply elem_of_nil in Hin. }
  apply includes_app_l, includes_here.
Qed.

(** ** The new state *)



(** ** The commands after the instances *)

Lemma bind_steps {A B} (m : M A) (k : A → M B) w a w1 evs1 result w2 evs2 evs :
  m w = MkRun (Returned a) w1 evs1 → k a w1 = MkRun result w2 evs2 →
  evs = evs1 ++ evs2 → (m ≫= k) w = MkRun result w2 evs.
Proof. intros Hm Hk ->. unfold mbind, M_bind. by rewrite Hm, Hk. Qed.

Lemma tryCatch_steps_returned {A} (body : M A) handler w a w1 evs :
  body w = MkRun (Returned a) w1 evs →
  tryCatch body handler w = MkRun (Returned a) w1 evs.
Proof. intros H. unfold tryCatch. by rewrite H. Qed.

Lemma tryCatch_steps_thrown {A} (body : M A) handler w e w1 evs1 result w2 evs2 evs :
  body w = MkRun (Thrown e) w1 evs1 → handler e w1 = MkRun result w2 evs2 →
  evs = evs1 ++ evs2 → tryCatch body handler w = MkRun result w2 evs.
Proof. intros Hb Hh ->. unfold tryCatch. by rewrite Hb, Hh. Qed.

Lemma bind_steps_thrown {A B} (m : M A) (k : A → M B) w e w1 evs1 :
  m w = MkRun (Thrown e) w1 evs1 → (m ≫= k) w = MkRun (Thrown e) w1 evs1.
Proof. intros Hm. unfold mbind, M_bind. by rewrite Hm. Qed.

Lemma runCommand_succeeds c suppressErrors w :
  failing w !! commandLine c = None →
  (∀ source destination, c ≠ GitMv source destination) →
  runCommand c suppressErrors w = MkRun (Returned ()) w [Exec (commandLine c)].
Proof.
  intros Hf Hc. unfold runCommand, shell. rewrite Hf.
  destruct c; try done. by destruct (Hc source destination).
Qed.

Lemma runCommand_fails c suppressErrors w stderr :
  failing w !! commandLine c = Some stderr →
  runCommand c suppressErrors w
  = MkRun (Thrown ("Command failed: " +:+ commandLine c +:+ newline +:+ stderr))
          w (Exec (commandLine c) ::
             if suppressErrors then []
             else [Error ("Command failed: " +:+ stderr)]).
Proof. intros Hf. unfold runCommand, shell. by rewrite Hf. Qed.

Lemma allSpace_join_visible x rest :
  startsVisible x → JS.allSpace (JS.join " " (x :: rest)) = false.
Proof.
  destruct x as [|c x]; [done|]. intros Hc.
  destruct rest as [|y rest]; cbn [JS.join].
  - cbn. by rewrite Hc.
  - change (JS.allSpace (String c (x +:+ " " +:+ JS.join " " (y :: rest))) = false).
    cbn. by rewrite Hc.
Qed.

Lemma stagedTotals_filesToAdd totals :
  stagedTotals totals →
  allChangedFiles totals ≠ [] ∨ allMovedFiles totals ≠ [] →
  JS.allSpace (JS.join " " (allChangedFiles totals ++ allStateFiles totals))
  = false.
Proof.
  intros (Hch & Hst & Hsome) Hgate. specialize (Hsome Hgate).
  destruct (allChangedFiles totals) as [|x rest] eqn:Hx.
  - destruct (allStateFiles totals) as [|y rest]; [done|].
    apply Forall_cons in Hst as [Hy _]. by apply allSpace_join_visible.
  - apply Forall_cons in Hch as [Hvis _]. by apply allSpace_join_visible.
Qed.

Section Staging.

Variable REPO_PATH : string.
Variable reformat : string → option string.

Lemma syncInstanceFlows_result instance fetched w result :
  outcome (syncInstanceFlows REPO_PATH reformat instance fetched w)
  = Returned result →
  ∃ changedFiles movedFiles,
    result = resultOf instance changedFiles movedFiles ∧
    Forall startsVisible changedFiles.
Proof.
  intros Hres. unfold syncInstanceFlows in Hres.
  rewrite (bind_run _ _ w () w [Log _] eq_refl) in Hres. cbn [outcome] in Hres.
  destruct fetched as [message|[|] status rawBody [syntaxError|flows]];
    try done;
    try (rewrite (bind_run _ _ w () w [Error _] eq_refl) in Hres; done).
  destruct (getLastKnownState_spec REPO_PATH instance w) as (lastState & Hl & _).
  destruct (outcome (reconcile REPO_PATH reformat instance flows lastState w))
    as [[[cs ch] mv]|e] eqn:Hrec.
  2:{ rewrite (syncFetchedFlows_thrown _ _ _ _ _ _ _ Hl Hrec) in Hres. done. }
  destruct (syncFetchedFlows_returned REPO_PATH reformat instance flows w
              lastState cs ch mv Hl Hrec) as (Hout & _).
  rewrite Hout in Hres. injection Hres as <-.
  exists ch, mv. split; [done|].
  destruct (reconcile_spec REPO_PATH reformat instance flows lastState w)
    as (_ & _ & Hspec).
  destruct (Hspec _ _ _ Hrec) as (-> & _).
  apply Forall_fmap, Forall_forall. intros flow _. reflexivity.
Qed.

Lemma syncOne_staged acc job w acc' :
  stagedTotals acc →
  outcome (syncOne REPO_PATH reformat acc job w) = Returned acc' →
  stagedTotals acc'.
Proof.
  intros Hacc Hone. unfold syncOne in Hone.
  destruct (outcome (syncInstanceFlows REPO_PATH reformat job.1 job.2 w))
    as [result|e] eqn:Hres.
  - match type of Hone with
    | context [tryCatch ?body ?handler w] =>
        rewrite (tryCatch_returned body handler w _
                   (eq_trans (f_equal outcome (bind_returned _ _ _ _ Hres)) eq_refl))
          in Hone;
        rewrite (bind_returned _ _ _ _ Hres) in Hone
    end.
    cbn [outcome mret M_ret] in Hone. injection Hone as <-.
    destruct (syncInstanceFlows_result _ _ _ _ Hres) as (ch & mv & -> & Hvis).
    destruct Hacc as (Hch & Hst & Hsome).
    unfold stagedTotals. cbn [allChangedFiles allMovedFiles allStateFiles
      SyncResult.changedFiles SyncResult.movedFiles SyncResult.stateFile resultOf].
    split_and!.
    + by apply Forall_app.
    + destruct (_ || _); [|done]. apply Forall_app. split; [done|].
      by repeat constructor.
    + intros Hgate.
      destruct ch as [|c ch]; [destruct mv as [|m mv]|].
      * cbn. rewrite !app_nil_r in Hgate. by apply Hsome.
      * cbn. intros Hnil. by apply app_nil in Hnil as [_ ?].
      * cbn. intros Hnil. by apply app_nil in Hnil as [_ ?].
  - match type of Hone with
    | context [tryCatch ?body ?handler w] =>
        rewrite (tryCatch_thrown body handler w e
                   (eq_trans (f_equal outcome (bind_thrown _ _ _ _ Hres)) eq_refl))
          in Hone
    end.
    cbn [outcome] in Hone.
    rewrite (bind_run _ _ _ () _ [Error _] eq_refl) in Hone.
    cbn [outcome mret M_ret] in Hone. by injection Hone as <-.
Qed.

Lemma syncAll_staged jobs w totals :
  outcome (syncAll REPO_PATH reformat jobs w) = Returned totals →
  stagedTotals totals.
Proof.
  unfold syncAll.
  assert (stagedTotals (MkTotals [] [] [])) as Hinit.
  { split_and!; [constructor|constructor|]. by intros [?|?]. }
  revert Hinit. generalize (MkTotals [] [] []). revert w.
  induction jobs as [|job jobs IH]; intros w acc Hacc Hout.
  - cbn in Hout. by injection Hout as <-.
  - rewrite forEach_cons in Hout.
    destruct (outcome (syncOne REPO_PATH reformat acc job w)) as [acc'|e] eqn:Hone.
    + rewrite (bind_returned _ _ _ _ Hone) in Hout. cbn [outcome] in Hout.
      eapply IH; [|exact Hout]. by eapply syncOne_staged.
    + by rewrite (bind_thrown _ _ _ _ Hone) in Hout.
Qed.

(** X12. The commands of a sweep that changed something (lines 247-268):
    when, in an environment where no command fails, the instances have
    given a written or a moved file, the sweep then runs, in this order and
    nothing else: the two settings of the committer, [git add] with the
    written files followed by the state files of the instances that changed
    (the moved files are not among them), [git commit] with the message, and
    [git push]. The list to add is never empty, so that the test of line 254
    never skips [git add]. *)
Theorem sweep_commands_when_changed jobs w totals :
  failing w = ∅ →
  outcome (syncAll REPO_PATH reformat jobs w) = Returned totals →
  allChangedFiles totals ≠ [] ∨ allMovedFiles totals ≠ [] →
  execs (events (syncFlows REPO_PATH reformat jobs w))
  = execs (events (syncAll REPO_PATH reformat jobs w))
    ++ [commandLine GitConfigUserName;
        commandLine GitConfigUserEmail;
        "git add " +:+ JS.join " " (allChangedFiles totals ++ allStateFiles totals);
        commandLine (GitCommit (commitMessage (length (allChangedFiles totals))
                                              (length (allMovedFiles totals))));
        "git push -u origin main"].
Proof.
  intros Hf Htotals Hgate.
  unfold syncFlows. rewrite (bind_run _ _ w () w [Mkdir _] eq_refl).
  rewrite (bind_returned _ _ _ _ Htotals). cbn [events].
  change (execs ([Mkdir ?d] ++ ?l)) with (execs l).
  rewrite execs_app. f_equal.
  destruct (tame_syncAll REPO_PATH reformat (λ _, True) (λ _ _, I) jobs w)
    as [Hfail _].
  set (w' := world (syncAll REPO_PATH reformat jobs w)) in *.
  assert (∀ line, failing w' !! line = None) as Hok.
  { intros line. by rewrite Hfail, Hf, lookup_empty. }
  pose proof (stagedTotals_filesToAdd totals (syncAll_staged jobs w totals Htotals)
                Hgate) as Hadd.
  unfold commitAndPush.
  assert (bool_decide (0 < length (allChangedFiles totals))
          || bool_decide (0 < length (allMovedFiles totals)) = true) as ->.
  { apply orb_true_iff.
    destruct Hgate as [H|H]; [left|right]; apply bool_decide_eq_true;
      [destruct (allChangedFiles totals)|destruct (allMovedFiles totals)];
      try done; cbn; lia. }
  rewrite Hadd.
  match goal with
  | |- execs (events (tryCatch ?body ?handler w')) = _ =>
      assert (body w'
              = MkRun (Returned ()) w'
                  [Log "  -> Committing changes...";
                   Exec (commandLine GitConfigUserName);
                   Exec (commandLine GitConfigUserEmail);
                   Exec (commandLine
                           (GitAdd (JS.join " " (allChangedFiles totals
                                                 ++ allStateFiles totals))));
                   Exec (commandLine
                           (GitCommit (commitMessage
                                         (length (allChangedFiles totals))
                                         (length (allMovedFiles totals)))));
                   Log "  -> Pushing to remote repository...";
                   Exec (commandLine GitPush);
                   Log "  -> Multi-instance sync successful!"]) as Hbody;
      [|rewrite (tryCatch_steps_returned body handler w' _ _ _ Hbody)]
  end.
  { eapply bind_steps; [reflexivity| |reflexivity].
    eapply bind_steps; [by apply runCommand_succeeds| |reflexivity].
    eapply bind_steps; [by apply runCommand_succeeds| |reflexivity].
    eapply bind_steps; [by apply runCommand_succeeds| |reflexivity].
    eapply bind_steps; [by apply runCommand_succeeds| |reflexivity].
    eapply bind_steps; [reflexivity| |reflexivity].
    eapply tryCatch_steps_returned.
    eapply bind_steps; [by apply runCommand_succeeds|reflexivity|reflexivity]. }
  reflexivity.
Qed.

(** X16. A push that fails does not undo the commit (lines 263-286): when
    only the push fails, the commands before it, the commit among them, have
    been run, the sweep returns, and it ends on the advice about the remote
    and the assurance that the flows are saved locally when the error is one
    of a missing remote or permission, and on the raw error otherwise. *)
Theorem push_failure_keeps_commit totals w stderr :
  failing w !! commandLine GitPush = Some stderr →
  (∀ line, line ≠ commandLine GitPush → failing w !! line = None) →
  allChangedFiles totals ≠ [] ∨ allMovedFiles totals ≠ [] →
  let r := commitAndPush totals w in
  let pushError :=
    "Command failed: git push -u origin main" +:+ newline +:+ stderr in
  outcome r = Returned () ∧
  commandLine (GitCommit (commitMessage (length (allChangedFiles totals))
                                        (length (allMovedFiles totals))))
  ∈ execs (events r) ∧
  ∃ before,
    events r
    = before ++
      (if pushDenied pushError then
         [Error "Error: No valid git remote configured or you do not have permission to push. Set GIT_REMOTE_URL in your .env file or add a remote manually.";
          Log "Your flows have still been saved locally and are up to date on your machine."]
       else [Error ("  -> Git push process failed: " +:+ pushError)]).
Proof.
  intros Hpush Hok Hgate. cbv zeta.
  assert (∀ c, (∀ s d, c ≠ GitMv s d) → c ≠ GitPush →
               commandLine c ≠ commandLine GitPush →
               ∀ suppress, runCommand c suppress w
                           = MkRun (Returned ()) w [Exec (commandLine c)]) as Hrun.
  { intros c Hmv _ Hline suppress. apply runCommand_succeeds; [|done].
    by apply Hok. }
  assert (commitAndPush totals w
          = MkRun (Returned ()) w
              ([Log "  -> Committing changes...";
                Exec (commandLine GitConfigUserName);
                Exec (commandLine GitConfigUserEmail)]
               ++ (if JS.allSpace (JS.join " " (allChangedFiles totals
                                                ++ allStateFiles totals))
                   then []
                   else [Exec (commandLine
                                 (GitAdd (JS.join " " (allChangedFiles totals
                                                       ++ allStateFiles totals))))])
               ++ [Exec (commandLine
                           (GitCommit (commitMessage
                                         (length (allChangedFiles totals))
                                         (length (allMovedFiles totals)))));
                   Log "  -> Pushing to remote repository...";
                   Exec (commandLine GitPush)]
               ++ (if pushDenied ("Command failed: git push -u origin main"
                                  +:+ newline +:+ stderr)
                   then [Error "Error: No valid git remote configured or you do not have permission to push. Set GIT_REMOTE_URL in your .env file or add a remote manually.";
                         Log "Your flows have still been saved locally and are up to date on your machine."]
                   else [Error ("  -> Git push process failed: "
                                +:+ ("Command failed: git push -u origin main"
                                     +:+ newline +:+ stderr))]))) as ->.
  { unfold commitAndPush.
    assert (bool_decide (0 < length (allChangedFiles totals))
            || bool_decide (0 < length (allMovedFiles totals)) = true) as ->.
    { apply orb_true_iff.
      destruct Hgate as [H|H]; [left|right]; apply bool_decide_eq_true;
        [destruct (allChangedFiles totals)|destruct (allMovedFiles totals)];
        try done; cbn; lia. }
    eapply tryCatch_steps_returned.
    eapply bind_steps; [reflexivity| |reflexivity].
    eapply bind_steps; [by apply Hrun| |reflexivity].
    eapply bind_steps; [by apply Hrun| |reflexivity].
    eapply (bind_steps _ _ w () w
              (if JS.allSpace (JS.join " " (allChangedFiles totals
                                            ++ allStateFiles totals))
               then []
               else [Exec (commandLine
                             (GitAdd (JS.join " " (allChangedFiles totals
                                                   ++ allStateFiles totals))))])).
    { destruct (JS.allSpace _); [reflexivity|].
      apply Hrun; done. }
    2:{ reflexivity. }
    eapply bind_steps.
    { apply Hrun; done. }
    2:{ reflexivity. }
    eapply bind_steps; [reflexivity| |reflexivity].
    eapply (tryCatch_steps_thrown _ _ w
              ("Command failed: git push -u origin main" +:+ newline +:+ stderr)
              w [Exec (commandLine GitPush)] (Returned ()) w
              (if pushDenied ("Command failed: git push -u origin main"
                              +:+ newline +:+ stderr)
               then [Error "Error: No valid git remote configured or you do not have permission to push. Set GIT_REMOTE_URL in your .env file or add a remote manually.";
                     Log "Your flows have still been saved locally and are up to date on your machine."]
               else [Error ("  -> Git push process failed: "
                            +:+ ("Command failed: git push -u origin main"
                                 +:+ newline +:+ stderr))])).
    - eapply bind_steps_thrown. by apply runCommand_fails.
    - destruct (pushDenied _); reflexivity.
    - reflexivity. }
  cbn [outcome events]. split_and!.
  - done.
  - rewrite !execs_app. apply elem_of_app. right. apply elem_of_app. right.
    apply elem_of_app. left. by left.
  - eexists. rewrite !app_assoc. reflexivity.
Qed.

End Staging.

(** ** The properties on the scenario *)

Example loadInstancesConfig_example :
  outcome (loadInstancesConfig exampleParse (Some "(config)") emptyWorld)
  = Returned [exampleInstance].
Proof. vm_compute. reflexivity. Qed.

Lemma state_saved_iff_changed_witness :
  outcome (syncInstanceFlows "/app" exampleReformat exampleInstance
             exampleFetched emptyWorld)
  = Returned (resultOf exampleInstance
                ["flows/inst/chatflow/Test_Flow_id_c123.json"] []) ∧
  ∃ flowWrites newState,
    writes (events (syncInstanceFlows "/app" exampleReformat exampleInstance
                      exampleFetched emptyWorld))
    = flowWrites ++ [("/app/.flow_state_inst.json", StateDoc newState)].
Proof.
  assert (outcome (syncInstanceFlows "/app" exampleReformat exampleInstance
                     exampleFetched emptyWorld)
          = Returned (resultOf exampleInstance
                        ["flows/inst/chatflow/Test_Flow_id_c123.json"] []))
    as Hout by (vm_compute; reflexivity).
  split; [exact Hout|].
  destruct (state_saved_iff_changed "/app" exampleReformat exampleInstance 200
              "(body)" [exampleFlow] emptyWorld _ Hout)
    as [(Hch & _)|(_ & flowWrites & newState & _ & Hwrites & _)].
  - discriminate Hch.
  - exists flowWrites, newState. exact Hwrites.
Defined.


Lemma safeName_has_no_separator_witness :
  Forall (λ c, JS.isSpaceOrSlash c = false)
         (stringChars (Flow.name (Flow.Build "abc123" "TestFlow" None None None))) ∧
  safeName (Flow.Build "abc123" "TestFlow" None None None) = "TestFlow".
Proof.
  assert (Forall (λ c, JS.isSpaceOrSlash c = false)
            (stringChars
               (Flow.name (Flow.Build "abc123" "TestFlow" None None None))))
    as Hclean by (repeat constructor).
  split; [exact Hclean|].
  destruct (safeName_has_no_separator
              (Flow.Build "abc123" "TestFlow" None None None))
    as (_ & _ & _ & Hkept).
  exact (Hkept Hclean).
Defined.


Lemma pushDenied_any_case_witness :
  "denied to" ∈ pushDeniedMarkers ∧
  sameUpToCase "Denied TO" "denied to" ∧
  pushDenied ("remote: Permission to repo " +:+ "Denied TO" +:+ " bot") = true.
Proof.
  assert ("denied to" ∈ pushDeniedMarkers) as Hin.
  { unfold pushDeniedMarkers. do 3 apply list_elem_of_further.
    apply list_elem_of_here. }
  assert (sameUpToCase "Denied TO" "denied to") as Hsame.
  { repeat (constructor;
            [first [ left; reflexivity
                   | right; left; split; reflexivity ]|]).
    constructor. }
  split; [exact Hin|]. split; [exact Hsame|].
  exact (pushDenied_any_case "denied to" "Denied TO"
           "remote: Permission to repo " " bot" Hin Hsame).
Defined.



Lemma sweep_commands_when_changed_witness :
  failing emptyWorld = ∅ ∧
  execs (events (syncFlows "/app" exampleReformat
                   [(exampleInstance, exampleFetched)] emptyWorld))
  = execs (events (syncAll "/app" exampleReformat
                     [(exampleInstance, exampleFetched)] emptyWorld))
    ++ [commandLine GitConfigUserName;
        commandLine GitConfigUserEmail;
        "git add flows/inst/chatflow/Test_Flow_id_c123.json .flow_state_inst.json";
        commandLine (GitCommit "Sync: 1 updated flow(s)");
        "git push -u origin main"].
Proof.
  split; [reflexivity|].
  exact (sweep_commands_when_changed "/app" exampleReformat
           [(exampleInstance, exampleFetched)] emptyWorld
           (MkTotals ["flows/inst/chatflow/Test_Flow_id_c123.json"] []
                     [".flow_state_inst.json"])
           eq_refl ltac:(vm_compute; reflexivity)
           ltac:(left; discriminate)).
Defined.

Lemma push_failure_keeps_commit_witness :
  outcome (commitAndPush
             (MkTotals ["flows/inst/chatflow/Test_Flow_id_c123.json"] []
                       [".flow_state_inst.json"])
             (MkWorld ∅ {[ "git push -u origin main"
                             := "remote: Permission denied" ]}))
  = Returned ().
Proof.
  destruct (push_failure_keeps_commit
              (MkTotals ["flows/inst/chatflow/Test_Flow_id_c123.json"] []
                        [".flow_state_inst.json"])
              (MkWorld ∅ {[ "git push -u origin main"
                              := "remote: Permission denied" ]})
              "remote: Permission denied") as [Hout _].
  - reflexivity.
  - intros line Hline. cbn [failing]. apply lookup_singleton_ne.
    intros Heq. apply Hline. symmetry. exact Heq.
  - left. discriminate.
  - exact Hout.
Defined.

(** ** The address of the request *)

Lemma stripTrailingSlashes_slashes n : stripTrailingSlashes (slashes n) = "".
Proof. induction n as [|n IH]; [done|]. cbn. by rewrite IH. Qed.

Lemma stripTrailingSlashes_app s n :
  stripTrailingSlashes (s +:+ slashes n) = stripTrailingSlashes s.
Proof.
  induction s as [|c s IH].
  - apply stripTrailingSlashes_slashes.
  - change (String c s +:+ slashes n) with (String c (s +:+ slashes n)).
    cbn [stripTrailingSlashes]. by rewrite IH.
Qed.

Lemma stripTrailingSlashes_split s :
  ∃ n, s = stripTrailingSlashes s +:+ slashes n.
Proof.
  induction s as [|c s [n IH]]; [by exists 0|].
  cbn [stripTrailingSlashes].
  destruct (stripTrailingSlashes s) as [|c' r] eqn:Hs.
  - change ("" +:+ slashes n) with (slashes n) in IH.
    destruct (bool_decide (c = "/"%char)) eqn:Hc.
    + apply bool_decide_eq_true in Hc as ->. exists (S n). by rewrite IH.
    + exists n. by rewrite IH.
  - exists n. rewrite IH at 1. reflexivity.
Qed.

Lemma stripTrailingSlashes_end s :
  Path.endsWithSlash (stripTrailingSlashes s) = false.
Proof.
  induction s as [|c s IH]; [done|].
  cbn [stripTrailingSlashes].
  destruct (stripTrailingSlashes s) as [|c' r] eqn:Hs.
  - destruct (bool_decide (c = "/"%char)) eqn:Hc; [done|]. cbn. exact Hc.
  - exact IH.
Qed.

(** X15. Slashes at the end of the address of an instance do not matter
    (line 106): the address of the request is the address of the instance
    without the slashes at its end, which are the only thing dropped, then
    [/api/v1/chatflows]; an address with more slashes at its end gives the
    same request. *)
Theorem apiUrl_ignores_trailing_slashes name url apiKey enabled :
  ∃ base n,
    url = base +:+ slashes n ∧ Path.endsWithSlash base = false ∧
    ∀ more,
      apiUrl (Instance.Build name (url +:+ slashes more) apiKey enabled)
      = base +:+ "/api/v1/chatflows".
Proof.
  destruct (stripTrailingSlashes_split url) as [n Hn].
  exists (stripTrailingSlashes url), n. split; [exact Hn|].
  split; [apply stripTrailingSlashes_end|].
  intros more. unfold apiUrl. cbn [Instance.url].
  by rewrite stripTrailingSlashes_app.
Qed.

Example apiUrl_example :
  apiUrl (Instance.Build "inst" "http://localhost:3000//" "key" true)
  = "http://localhost:3000/api/v1/chatflows".
Proof. reflexivity. Qed.
